(** * The page-view counter of web-app/server.js

    The [GET /] handler of the Express application keeps a page counter in a
    MySQL table ([visitor_count], one row with [id = 1]) and a copy of it in
    Redis under the key [page_views_total].  This development embeds the
    handler as a program over the two services, gives the services the
    semantics of the five commands the handler sends, and proves what the
    handler does in sequential runs, under failures of either service and
    under interleaving of several requests.

    What is modelled and what is not:
    - the handler from its cache lookup to its response; the session
      counter [req.session.views] and the host name, which it also hands
      to the view, neither read nor write the page counter and are left
      out, and rendering the view is taken to succeed;
    - Redis as a map from keys to strings with an expiry time, MySQL as
      the rows of [visitor_count] with a [count] in the range of the INT
      column or [NULL];
    - a command that fails has no effect on its service;
    - Node runs the code between two [await]s without interruption and
      each service carries out one command at a time, so requests in
      flight together interleave command by command. *)

From stdpp Require Import gmap strings list pretty.
From Stdlib Require Import ZArith NArith Ascii String Lia.

Open Scope Z_scope.

(** ** JavaScript values and numbers

    Strings are sequences of code units below 256. *)

Module JS.

(** The values the local [totalViews] ranges over: the reply of
    [redisClient.get] ([null] or a string), a [count] field of a row (a
    number or [null]), the [undefined] of [rows[0]?.count] on an empty
    result, and the literal [0]. *)
Inductive value : Type :=
| VUndefined
| VNull
| VStr (s : string)
| VNum (z : Z).

(** A JavaScript number as far as the handler computes with it: [NaN], an
    integer of magnitude at most [MAX_SAFE_INTEGER], which a double holds
    exactly, or [Inexact], any other double, whose value is not followed. *)
Inductive number : Type :=
| NaN
| Int (z : Z)
| Inexact.

Definition MAX_SAFE_INTEGER : Z := 9007199254740991.

Definition is_safe (z : Z) : Prop :=
  - MAX_SAFE_INTEGER <= z <= MAX_SAFE_INTEGER.

Definition safeb (z : Z) : bool :=
  (- MAX_SAFE_INTEGER <=? z) && (z <=? MAX_SAFE_INTEGER).

Definition of_Z (z : Z) : number := if safeb z then Int z else Inexact.

(** [x + 1] on numbers. *)
Definition add1 (x : number) : number :=
  match x with
  | NaN => NaN
  | Int z => of_Z (z + 1)
  | Inexact => Inexact
  end.

(** ToBoolean, as used by [!totalViews] and by [||]. *)
Definition truthy (v : value) : bool :=
  match v with
  | VUndefined | VNull => false
  | VStr s => negb (String.eqb s "")
  | VNum z => negb (z =? 0)
  end.

(** [a || b]. *)
Definition or (a b : value) : value := if truthy a then a else b.

(** [v.toString()]: a TypeError ([None]) on [null] and [undefined]; the
    decimal digits of an integer, with a leading [-] when it is negative. *)
Definition toString (v : value) : option string :=
  match v with
  | VUndefined | VNull => None
  | VStr s => Some s
  | VNum z => Some (pretty z)
  end.

(** The abstract operation ToString, which [parseInt] applies to its
    argument. *)
Definition ToString (v : value) : string :=
  match v with
  | VUndefined => "undefined"
  | VNull => "null"
  | VStr s => s
  | VNum z => pretty z
  end.

(** White space that [parseInt] skips, among the code units below 256. *)
Definition is_white (c : ascii) : bool :=
  let n := N_of_ascii c in
  ((9 <=? n) && (n <=? 13) || (n =? 32) || (n =? 160))%N.

Fixpoint trim_start (s : string) : string :=
  match s with
  | String c s' => if is_white c then trim_start s' else s
  | EmptyString => s
  end.

(** The value of a character as a digit of the given radix (10 or 16). *)
Definition digit_val (radix : N) (c : ascii) : option N :=
  let n := N_of_ascii c in
  (if (48 <=? n) && (n <=? 57) then Some (n - 48)
   else if (radix =? 16) && (97 <=? n) && (n <=? 102) then Some (n - 87)
   else if (radix =? 16) && (65 <=? n) && (n <=? 70) then Some (n - 55)
   else None)%N.

(** The digits at the start of a string, accumulated most significant
    first, up to the first character that is not a digit. *)
Fixpoint digits_acc (radix acc : N) (s : string) : N :=
  match s with
  | String c s' =>
      match digit_val radix c with
      | Some d => digits_acc radix (acc * radix + d) s'
      | None => acc
      end
  | EmptyString => acc
  end.

(** [None] when the string starts with no digit. *)
Definition digits (radix : N) (s : string) : option N :=
  match s with
  | String c _ =>
      match digit_val radix c with
      | Some _ => Some (digits_acc radix 0 s)
      | None => None
      end
  | EmptyString => None
  end.

(** [parseInt(string)] with no radix argument: skip white space, read a
    sign, switch to radix 16 after a [0x] or [0X] prefix, read digits up to
    the first character that is none. *)
Definition parseInt_string (s : string) : number :=
  let s := trim_start s in
  let '(neg, s) :=
    match s with
    | String "-" s' => (true, s')
    | String "+" s' => (false, s')
    | _ => (false, s)
    end in
  let '(radix, s) :=
    match s with
    | String "0" (String "x" s') => (16%N, s')
    | String "0" (String "X" s') => (16%N, s')
    | _ => (10%N, s)
    end in
  match digits radix s with
  | None => NaN
  | Some n => of_Z (if neg then - Z.of_N n else Z.of_N n)
  end.

Definition parseInt (v : value) : number := parseInt_string (ToString v).

End JS.

(** ** The two services *)

(** *** MySQL: the table [visitor_count]

    [count INT DEFAULT 0]: a signed 32-bit column that admits [NULL]. *)

Definition INT_MIN : Z := -2147483648.
Definition INT_MAX : Z := 2147483647.

Definition in_INT (z : Z) : bool := (INT_MIN <=? z) && (z <=? INT_MAX).

Record sql_int : Type := SqlInt {
  int_val : Z;
  int_range : Is_true (in_INT int_val)
}.

(** The column value for an integer, when the column can hold it. *)
Definition to_INT (z : Z) : option sql_int :=
  match decide (Is_true (in_INT z)) with
  | left H => Some (SqlInt z H)
  | right _ => None
  end.

(** The rows of [visitor_count] by [id], each with its [count] ([None] is
    [NULL]), and the server's SQL mode: in strict mode a value out of the
    column's range is an error, otherwise it is clipped to the range.
    [updated_at] is kept by the server and read by nothing. *)
Record database : Type := Database {
  visitor_count : gmap Z (option sql_int);
  strict : bool
}.

(** [SELECT count FROM visitor_count WHERE id = 1]: the rows found. *)
Definition select_count (d : database) : list (option sql_int) :=
  match visitor_count d !! 1 with
  | Some c => [c]
  | None => []
  end.

(** [UPDATE visitor_count SET count = count + 1 WHERE id = 1]: no row, or
    a [NULL] count ([NULL + 1] is [NULL]), leaves the table as it is; the
    statement fails ([None]) only on a count out of range in strict mode. *)
Definition increment_count (d : database) : option database :=
  match visitor_count d !! 1 with
  | Some (Some c) =>
      match to_INT (int_val c + 1) with
      | Some c' =>
          Some (Database (<[1 := Some c']> (visitor_count d)) (strict d))
      | None =>
          if strict d then None
          else Some (Database (<[1 := Some (SqlInt INT_MAX I)]> (visitor_count d))
                              (strict d))
      end
  | _ => Some d
  end.

(** [INSERT IGNORE INTO visitor_count (id, count) VALUES (1, 0)] of
    [initializeDatabase]. *)
Definition seed_count (d : database) : database :=
  match visitor_count d !! 1 with
  | Some _ => d
  | None => Database (<[1 := Some (SqlInt 0 I)]> (visitor_count d)) (strict d)
  end.

(** *** Redis: string keys with an expiry time

    Time is in milliseconds. *)

Record entry : Type := Entry {
  value : string;
  expires : N
}.

(** [GET key] at time [t]: an entry whose time has come is gone. *)
Definition redis_get (t : N) (r : gmap string entry) (key : string)
  : option string :=
  match r !! key with
  | Some e => if (t <? expires e)%N then Some (value e) else None
  | None => None
  end.

(** [SETEX key seconds value]; Redis refuses a time to live of zero. *)
Definition redis_setEx (t : N) (r : gmap string entry)
    (key : string) (seconds : N) (v : string) : option (gmap string entry) :=
  if (seconds =? 0)%N then None
  else Some (<[key := Entry v (t + 1000 * seconds)]> r).

(** [DEL key]. *)
Definition redis_del (r : gmap string entry) (key : string)
  : gmap string entry :=
  delete key r.

(** *** The world a request runs in *)

Record world : Type := World {
  now : N;
  redis : gmap string entry;
  mysql : database
}.

(** The count the table holds in row 1, when the row is there and its
    count is not [NULL]. *)
Definition db_count (d : database) : option Z :=
  match visitor_count d !! 1 with
  | Some (Some c) => Some (int_val c)
  | _ => None
  end.

Definition store_count (w : world) : option Z := db_count (mysql w).

(** The live cache entry of a key. *)
Definition cached (w : world) (key : string) : option string :=
  redis_get (now w) (redis w) key.

(** ** Commands, and programs that send them *)

Inductive op : Type :=
| RedisGet (key : string)
| RedisSetEx (key : string) (seconds : N) (v : string)
| RedisDel (key : string)
| MysqlSelectCount
| MysqlIncrementCount.

Definition reply (o : op) : Type :=
  match o with
  | RedisGet _ => option string
  | MysqlSelectCount => list (option sql_int)
  | _ => unit
  end.

(** What a command does to the services when it reaches them; [None] is the
    service's error reply, which leaves the service as it was. *)
Definition exec (o : op) (w : world) : option (reply o) * world :=
  match o return option (reply o) * world with
  | RedisGet key => (Some (redis_get (now w) (redis w) key), w)
  | RedisSetEx key seconds v =>
      match redis_setEx (now w) (redis w) key seconds v with
      | Some r => (Some tt, World (now w) r (mysql w))
      | None => (None, w)
      end
  | RedisDel key => (Some tt, World (now w) (redis_del (redis w) key) (mysql w))
  | MysqlSelectCount => (Some (select_count (mysql w)), w)
  | MysqlIncrementCount =>
      match increment_count (mysql w) with
      | Some d => (Some tt, World (now w) (redis w) d)
      | None => (None, w)
      end
  end.

(** What the surroundings decide for one command: the time that passes
    before it is carried out, and whether it reaches its service at all
    (a command that does not is rejected to the caller and changes
    nothing). *)
Record env : Type := Env {
  delay : N;
  ok : bool
}.

Definition tick (d : N) (w : world) : world :=
  World (now w + d) (redis w) (mysql w).

Definition perform (e : env) (o : op) (w : world) : option (reply o) * world :=
  let w := tick (delay e) w in
  if ok e then exec o w else (None, w).

(** A program: it returns, throws, or awaits a command, going on with the
    reply or, when the promise is rejected, with its second branch. *)
Inductive prog (A : Type) : Type :=
| Ret (a : A)
| Throw
| Call (o : op) (k : reply o -> prog A) (h : prog A).

Arguments Ret {A} a.
Arguments Throw {A}.
Arguments Call {A} o k h.

Fixpoint bind {A B : Type} (f : A -> prog B) (p : prog A) : prog B :=
  match p with
  | Ret a => f a
  | Throw => Throw
  | Call o k h => Call o (fun r => bind f (k r)) (bind f h)
  end.

#[export] Instance prog_ret : MRet prog := @Ret.
#[export] Instance prog_bind : MBind prog := @bind.
#[export] Instance prog_fmap : FMap prog :=
  fun A B f => bind (fun a => Ret (f a)).

(** [await] of a command: a rejection is thrown. *)
Definition call (o : op) : prog (reply o) := Call o Ret Throw.

(** [try { p } catch (error) { c }]. *)
Fixpoint try_catch {A : Type} (p c : prog A) : prog A :=
  match p with
  | Ret a => Ret a
  | Throw => c
  | Call o k h => Call o (fun r => try_catch (k r) c) (try_catch h c)
  end.

(** A step that throws when it has no result. *)
Definition orThrow {A : Type} (x : option A) : prog A :=
  match x with
  | Some a => Ret a
  | None => Throw
  end.

(** ** The handler of [GET /] *)

Definition cacheKey : string := "page_views_total".

(** The value [redisClient.get] resolves to. *)
Definition get_value (r : option string) : JS.value :=
  match r with
  | Some s => JS.VStr s
  | None => JS.VNull
  end.

(** [rows[0]?.count]. *)
Definition first_count (rows : list (option sql_int)) : JS.value :=
  match rows with
  | [] => JS.VUndefined
  | None :: _ => JS.VNull
  | Some c :: _ => JS.VNum (int_val c)
  end.

(** The body of the [try] block from the cache lookup on, up to the value
    handed to the view as [totalViews]. *)
Definition recordView : prog JS.number :=
  totalViews ← get_value <$> call (RedisGet cacheKey);
  totalViews ←
    (if negb (JS.truthy totalViews) then
       rows ← call MysqlSelectCount;
       let totalViews := JS.or (first_count rows) (JS.VNum 0) in
       s ← orThrow (JS.toString totalViews);
       call (RedisSetEx cacheKey 60 s);;
       mret totalViews
     else mret totalViews);
  call MysqlIncrementCount;;
  call (RedisDel cacheKey);;
  mret (JS.add1 (JS.parseInt totalViews)).

(** What the client gets: the page with its total, or status 500 with the
    text [Serverfehler]. *)
Inductive response : Type :=
| Render (totalViews : JS.number)
| ServerError.

(** [try { ... res.render(...) } catch (error) { res.status(500)... }]. *)
Definition handler : prog response :=
  try_catch (Render <$> recordView) (Ret ServerError).

(** ** Running programs *)

(** A command that was sent, and whether it was carried out. *)
Definition event : Type := op * bool.

Record result (A : Type) : Type := Result {
  returned : option A;
  final : world;
  trace : list event
}.

Arguments Result {A} returned final trace.
Arguments returned {A} r.
Arguments final {A} r.
Arguments trace {A} r.

(** No delay, no failure. *)
Definition calm : env := Env 0 true.

(** One command of a program. *)
Definition step {A : Type} (e : env) (p : prog A) (w : world)
  : prog A * world * list event :=
  match p with
  | Call o k h =>
      match perform e o w with
      | (Some r, w') => (k r, w', [(o, true)])
      | (None, w') => (h, w', [(o, false)])
      end
  | _ => (p, w, [])
  end.

(** The result of a run that went on after a first command. *)
Definition after {A : Type} (ev : event) (x : result A) : result A :=
  Result (returned x) (final x) (ev :: trace x).

(** A program run to its end; the script decides for each command in turn,
    and for the commands beyond its end all is [calm].  [returned] is
    [None] when the program ends in an exception nobody caught. *)
Fixpoint run {A : Type} (p : prog A) (sc : list env) (w : world) : result A :=
  match p with
  | Ret a => Result (Some a) w []
  | Throw => Result None w []
  | Call o k h =>
      match perform (hd calm sc) o w with
      | (Some r, w') => after (o, true) (run (k r) (tl sc) w')
      | (None, w') => after (o, false) (run h (tl sc) w')
      end
  end.

(** The first [n] commands of a program: what is left of it, the world
    they leave, and their events. *)
Fixpoint steps {A : Type} (n : nat) (p : prog A) (sc : list env) (w : world)
  : prog A * world * list event :=
  match n with
  | O => (p, w, [])
  | S n' =>
      let '(p', w', t) := step (hd calm sc) p w in
      let '(p'', w'', t') := steps n' p' (tl sc) w' in
      (p'', w'', t ++ t')
  end.

(** A script without failures. *)
Definition all_ok (sc : list env) : Prop := Forall (fun e => ok e = true) sc.

(** Requests served one after the other, each with its script. *)
Fixpoint serve_all (scs : list (list env)) (w : world)
  : list (option response) * world :=
  match scs with
  | [] => ([], w)
  | sc :: scs' =>
      let x := run handler sc w in
      let '(rs, w') := serve_all scs' (final x) in
      (returned x :: rs, w')
  end.

(** Requests in flight together: every turn lets one of them send its next
    command. *)
Record turn : Type := Turn {
  who : nat;
  cond : env
}.

Definition pool_step (t : turn) (s : world * list (prog response))
  : world * list (prog response) :=
  match s.2 !! who t with
  | Some p =>
      let '(p', w', _) := step (cond t) p s.1 in
      (w', <[who t := p']> s.2)
  | None => s
  end.

Definition pool_run (ts : list turn) (s : world * list (prog response))
  : world * list (prog response) :=
  fold_left (fun s t => pool_step t s) ts s.

(** ** Worlds to run examples in *)

(** A table with the single row [id = 1] holding [c] (no row when [c] is
    not an INT), at time 0 with an empty cache. *)
Definition db_of (c : Z) (mode : bool) : database :=
  Database (from_option (fun c => {[ 1 := Some c ]}) ∅ (to_INT c)) mode.

Definition world_of (c : Z) (mode : bool) : world := World 0 ∅ (db_of c mode).

(** The world with a live cache entry [v] for [page_views_total]. *)
Definition stale (v : string) (w : world) : world :=
  World (now w) (<[cacheKey := Entry v (now w + 60000)]> (redis w)) (mysql w).

(** ** The handler, command by command

    The programs the handler goes through, named by the command they are
    about to send. *)

Definition finish (totalViews : JS.value) : prog response :=
  Ret (Render (JS.add1 (JS.parseInt totalViews))).

Definition at_del (totalViews : JS.value) : prog response :=
  Call (RedisDel cacheKey) (fun _ => finish totalViews) (Ret ServerError).

Definition at_update (totalViews : JS.value) : prog response :=
  Call MysqlIncrementCount (fun _ => at_del totalViews) (Ret ServerError).

Definition at_setEx (totalViews : JS.value) (s : string) : prog response :=
  Call (RedisSetEx cacheKey 60 s) (fun _ => at_update totalViews)
       (Ret ServerError).

Definition after_select (rows : list (option sql_int)) : prog response :=
  let totalViews := JS.or (first_count rows) (JS.VNum 0) in
  match JS.toString totalViews with
  | Some s => at_setEx totalViews s
  | None => Ret ServerError
  end.

Definition at_select : prog response :=
  Call MysqlSelectCount after_select (Ret ServerError).

Definition after_get (r : option string) : prog response :=
  if JS.truthy (get_value r) then at_update (get_value r) else at_select.

Definition at_get : prog response :=
  Call (RedisGet cacheKey) after_get (Ret ServerError).

(** Programs that are the same tree of commands. *)
Inductive same {A : Type} : prog A -> prog A -> Prop :=
| same_Ret a : same (Ret a) (Ret a)
| same_Throw : same Throw Throw
| same_Call o k k' h h' :
    (forall r, same (k r) (k' r)) -> same h h' ->
    same (Call o k h) (Call o k' h').

(** Strings of decimal digits only. *)
Fixpoint decimal (s : string) : bool :=
  match s with
  | String c s' =>
      let n := N_of_ascii c in ((48 <=? n) && (n <=? 57))%N && decimal s'
  | EmptyString => true
  end.

(** The totals that [n] requests show when they count on from [initial]. *)
Definition totals (initial : Z) (n : nat) : list (option response) :=
  map (fun i => Some (Render (JS.Int (initial + Z.of_nat i)))) (seq 1 n).

(** The commands that go to the cache. *)
Definition is_redis (o : op) : bool :=
  match o with
  | RedisGet _ | RedisSetEx _ _ _ | RedisDel _ => true
  | MysqlSelectCount | MysqlIncrementCount => false
  end.

(** ** Requests in flight together *)

(** Commands that their service carries out whenever they reach it. *)
Definition accepted (o : op) : Prop :=
  match o with
  | MysqlIncrementCount => False
  | RedisSetEx _ seconds _ => seconds <> 0%N
  | _ => True
  end.

(** [owes u d p]: as long as no command fails, the program [p] has [u]
    increments of the count still to send, sends at most [d] commands in
    all, and ends with the page. *)
Inductive owes : nat -> nat -> prog response -> Prop :=
| owes_done d n : owes 0 d (Ret (Render n))
| owes_update u d k h :
    (forall r, owes u d (k r)) ->
    owes (S u) (S d) (Call MysqlIncrementCount k h)
| owes_other o u d k h :
    accepted o ->
    (forall r, owes u d (k r)) ->
    owes u (S d) (Call o k h).

(** A request that has sent its page. *)
Definition finished (p : prog response) : Prop :=
  exists n, p = Ret (Render n).

(** A schedule without failures. *)
Definition turns_ok (ts : list turn) : Prop :=
  Forall (fun t => ok (cond t) = true) ts.

(** The turns a request gets in a schedule. *)
Definition turns_of (i : nat) (ts : list turn) : nat :=
  count_occ Nat.eq_dec (map who ts) i.

(** [k] rounds in which each of [n] requests gets one turn. *)
Definition round_robin (n k : nat) : list turn :=
  List.concat (replicate k (map (fun i => Turn i calm) (seq 0 n))).

(** Two requests that take their turns alternately. *)
Definition alternate : list turn := round_robin 2 5.

(** ** More about the handler of [GET /] *)

(** [sends_le u p]: whatever the services reply and whichever commands
    fail, the program [p] sends at most [u] increments of the count. *)
Inductive sends_le : nat -> prog response -> Prop :=
| sends_le_Ret u r : sends_le u (Ret r)
| sends_le_Throw u : sends_le u Throw
| sends_le_update u k h :
    (forall r, sends_le u (k r)) -> sends_le u h ->
    sends_le (S u) (Call MysqlIncrementCount k h)
| sends_le_other o u k h :
    o <> MysqlIncrementCount ->
    (forall r, sends_le u (k r)) -> sends_le u h ->
    sends_le u (Call o k h).

(** The events of a run in which every command was carried out. *)
Definition all_carried_out (t : list event) : bool := forallb snd t.

(** The session counter of the handler,
    [if (!req.session.views) req.session.views = 1; else req.session.views++],
    on a field that is absent or holds a number. *)
Definition falsy_number (x : JS.number) : bool :=
  match x with
  | JS.NaN => true
  | JS.Int z => z =? 0
  | JS.Inexact => false
  end.

Definition count_view (views : option JS.number) : JS.number :=
  match views with
  | None => JS.Int 1
  | Some v => if falsy_number v then JS.Int 1 else JS.add1 v
  end.

(** The field after [k] requests of a session, each finding what the one
    before left. *)
Fixpoint views_after (k : nat) (views : option JS.number) : option JS.number :=
  match k with
  | O => views
  | S k' => views_after k' (Some (count_view views))
  end.

(** ** The handler of [GET /api/cache-test]

    The object the handler builds on a miss, with its date and its random
    number, is the argument [data]; [JSON.stringify] and [JSON.parse]
    ([None] when it throws) are arguments as well.  The [timestamp] of the
    answer is left out. *)

Module CacheTest.

Definition cacheKey : string := "test_data".

(** [res.json({ source, data, ... })], or status 500 with the message of
    the error. *)
Inductive response (json : Type) : Type :=
| Json (source : string) (data : json)
| Error500.

Arguments Json {json} source data.
Arguments Error500 {json}.

Definition handler {json : Type} (JSON_stringify : json -> string)
    (JSON_parse : string -> option json) (data : json)
  : prog (response json) :=
  try_catch
    (cachedData ← get_value <$> call (RedisGet cacheKey);
     if JS.truthy cachedData then
       parsed ← orThrow (JSON_parse (JS.ToString cachedData));
       mret (Json "cache" parsed)
     else
       call (RedisSetEx cacheKey 30 (JSON_stringify data));;
       mret (Json "database" data))
    (Ret Error500).

End CacheTest.

(** A stand-in for JSON on integers, to run the handler on. *)
Definition int_stringify (z : Z) : string := pretty z.

Definition int_parse (s : string) : option Z :=
  match JS.parseInt_string s with
  | JS.Int z => Some z
  | _ => None
  end.

(** ** Start-up and the health check

    [initializeDatabase], [startServer] and the handler of [GET /health]
    send statements one after the other and keep no cache entry, so they
    are run against the MySQL server alone: whether the tables [users] and
    [visitor_count] exist, the rows of the latter, and the SQL mode.  A
    script of booleans says for each statement in turn whether it reaches
    its service; beyond its end all do. *)

Module Boot.

Inductive stmt : Type :=
| GetConnection
| CreateUsers
| CreateVisitorCount
| InsertVisitorCount
| Release
| Select1
| Ping
| Listen.

Record server : Type := Server {
  users : bool;
  visits : option (gmap Z (option sql_int));
  mode : bool
}.

(** What a statement does when it is carried out; [None] is an error of
    the server.  [CREATE TABLE IF NOT EXISTS] leaves a table that exists
    as it is; [INSERT IGNORE ... VALUES (1, 0)] needs the table and adds
    the row only when no row has [id = 1]. *)
Definition effect (c : stmt) (s : server) : option server :=
  match c with
  | CreateUsers => Some (Server true (visits s) (mode s))
  | CreateVisitorCount =>
      Some (Server (users s) (Some (default ∅ (visits s))) (mode s))
  | InsertVisitorCount =>
      match visits s with
      | Some rows =>
          Some (Server (users s)
                       (Some (visitor_count (seed_count (Database rows (mode s)))))
                       (mode s))
      | None => None
      end
  | GetConnection | Release | Select1 | Ping | Listen => Some s
  end.

Record outcome (A : Type) : Type := Outcome {
  value : option A;
  state : server;
  sent : list (stmt * bool);
  rest : list bool
}.

Arguments Outcome {A} value state sent rest.
Arguments value {A} o.
Arguments state {A} o.
Arguments sent {A} o.
Arguments rest {A} o.

(** Code that sends statements: it ends with a value or with an exception
    ([None]). *)
Definition act (A : Type) : Type := list bool -> server -> outcome A.

Definition ret {A : Type} (a : A) : act A :=
  fun sc s => Outcome (Some a) s [] sc.

Definition bind {A B : Type} (f : A -> act B) (m : act A) : act B :=
  fun sc s =>
    match m sc s with
    | Outcome (Some a) s1 t1 sc1 =>
        match f a sc1 s1 with
        | Outcome v s2 t2 sc2 => Outcome v s2 (t1 ++ t2) sc2
        end
    | Outcome None s1 t1 sc1 => Outcome None s1 t1 sc1
    end.

#[export] Instance act_ret : MRet act := @ret.
#[export] Instance act_bind : MBind act := @bind.

(** [await] of a statement. *)
Definition send (c : stmt) : act unit :=
  fun sc s =>
    match (if hd true sc then effect c s else None) with
    | Some s' => Outcome (Some tt) s' [(c, true)] (tl sc)
    | None => Outcome None s [(c, false)] (tl sc)
    end.

(** [try { m } catch (error) { h }]. *)
Definition try_catch {A : Type} (m h : act A) : act A :=
  fun sc s =>
    match m sc s with
    | Outcome (Some a) s1 t1 sc1 => Outcome (Some a) s1 t1 sc1
    | Outcome None s1 t1 sc1 =>
        match h sc1 s1 with
        | Outcome v s2 t2 sc2 => Outcome v s2 (t1 ++ t2) sc2
        end
    end.

(** [initializeDatabase]: the [catch] only logs. *)
Definition initializeDatabase : act unit :=
  try_catch
    (send GetConnection;;
     send CreateUsers;;
     send CreateVisitorCount;;
     send InsertVisitorCount;;
     send Release)
    (mret tt).

(** How [startServer] ends: listening, or with [process.exit(1)]. *)
Inductive started : Type :=
| Listening
| Exit1.

Definition startServer : act started :=
  try_catch
    (initializeDatabase;;
     send Listen;;
     mret Listening)
    (mret Exit1).

(** The object the health check answers with, without its [uptime] and
    [timestamp]. *)
Record statuses : Type := Statuses {
  mysql : string;
  redis : string
}.

Record healthcheck : Type := Healthcheck {
  message : string;
  services : statuses
}.

(** [Object.values(healthcheck.services)]. *)
Definition values (s : statuses) : list string := [mysql s; redis s].

(** The handler of [GET /health]: the status code and the object. *)
Definition health : act (Z * healthcheck) :=
  let healthcheck :=
    Healthcheck "OK" (Statuses "checking" "checking") in
  healthcheck ←
    try_catch
      (send Select1;;
       mret (Healthcheck (message healthcheck)
               (Statuses "healthy" (redis (services healthcheck)))))
      (mret (Healthcheck "Service unavailable"
               (Statuses "unhealthy" (redis (services healthcheck)))));
  healthcheck ←
    try_catch
      (send Ping;;
       mret (Healthcheck (message healthcheck)
               (Statuses (mysql (services healthcheck)) "healthy")))
      (mret (Healthcheck "Service unavailable"
               (Statuses (mysql (services healthcheck)) "unhealthy")));
  let allHealthy :=
    forallb (fun status => String.eqb status "healthy")
            (values (services healthcheck)) in
  mret (if allHealthy then 200 else 503, healthcheck).

(** The server before anything was created. *)
Definition blank (strict_mode : bool) : server := Server false None strict_mode.

End Boot.

Lemma same_refl {A : Type} (p : prog A) : same p p.
Proof. induction p; constructor; auto. Qed.

Lemma run_same {A : Type} (p q : prog A) :
  same p q -> forall sc w, run p sc w = run q sc w.
Proof.
  induction 1 as [a| |o k k' h h' _ IHk _ IHh]; intros sc w; simpl; trivial.
  destruct (perform (hd calm sc) o w) as [[r|] w'].
  - now rewrite IHk.
  - now rewrite IHh.
Qed.

Lemma handler_same : same handler at_get.
Proof.
  unfold handler, recordView, at_get.
  constructor; [intros r|constructor].
  unfold after_get. destruct r as [s|]; simpl.
  - destruct (String.eqb s ""); simpl.
    + constructor; [intros rows|constructor].
      unfold after_select.
      destruct (JS.toString (JS.or (first_count rows) (JS.VNum 0)));
        simpl; repeat (constructor; try intro).
    + repeat (constructor; try intro).
  - constructor; [intros rows|constructor].
    unfold after_select.
    destruct (JS.toString (JS.or (first_count rows) (JS.VNum 0)));
      simpl; repeat (constructor; try intro).
Qed.

Lemma run_handler sc w : run handler sc w = run at_get sc w.
Proof. apply run_same, handler_same. Qed.

(** ** Decimal strings and [parseInt] *)

Lemma pretty_N_char_decimal d s :
  (d < 10)%N -> decimal s = true -> decimal (String (pretty_N_char d) s) = true.
Proof.
  intros Hd Hs.
  assert (d = 0 \/ d = 1 \/ d = 2 \/ d = 3 \/ d = 4 \/ d = 5 \/ d = 6 \/
          d = 7 \/ d = 8 \/ d = 9)%N as H by lia.
  repeat (destruct H as [->|H]); try subst d; simpl; exact Hs.
Qed.

Lemma digit_val_pretty d :
  (d < 10)%N -> JS.digit_val 10 (pretty_N_char d) = Some d.
Proof.
  intros Hd.
  assert (d = 0 \/ d = 1 \/ d = 2 \/ d = 3 \/ d = 4 \/ d = 5 \/ d = 6 \/
          d = 7 \/ d = 8 \/ d = 9)%N as H by lia.
  repeat (destruct H as [->|H]); try subst d; reflexivity.
Qed.

Lemma pretty_N_go_decimal x s :
  decimal s = true -> decimal (pretty_N_go x s) = true.
Proof.
  revert s. induction (N.lt_wf_0 x) as [x _ IH]; intros s Hs.
  destruct (N.eq_dec x 0) as [->|Hx].
  - now rewrite pretty_N_go_0.
  - rewrite pretty_N_go_step by lia.
    apply IH.
    + apply N.div_lt; lia.
    + apply pretty_N_char_decimal; [apply N.mod_lt; lia|exact Hs].
Qed.

Lemma pretty_N_go_cons x s :
  (0 < x)%N -> exists c s', pretty_N_go x s = String c s'.
Proof.
  revert s. induction (N.lt_wf_0 x) as [x _ IH]; intros s Hx.
  rewrite pretty_N_go_step by exact Hx.
  destruct (N.eq_dec (x `div` 10) 0) as [->|Hq].
  - rewrite pretty_N_go_0. eauto.
  - apply IH; [apply N.div_lt; lia|now apply N.neq_0_lt_0].
Qed.

Lemma digits_acc_pretty x :
  forall s acc, (0 < x)%N ->
  exists k : N,
    JS.digits_acc 10 acc (pretty_N_go x s)
    = JS.digits_acc 10 (acc * 10 ^ k + x) s.
Proof.
  induction (N.lt_wf_0 x) as [x _ IH]; intros s acc Hx.
  rewrite pretty_N_go_step by exact Hx.
  pose proof (N.div_mod x 10 ltac:(lia)) as Hdm.
  pose proof (N.mod_lt x 10 ltac:(lia)) as Hlt.
  destruct (N.eq_dec (x `div` 10) 0) as [Hq|Hq].
  - rewrite Hq, pretty_N_go_0. simpl.
    rewrite digit_val_pretty by exact Hlt.
    exists 1%N. f_equal. rewrite N.pow_1_r. lia.
  - destruct (IH (x `div` 10)%N ltac:(apply N.div_lt; lia)
                (String (pretty_N_char (x `mod` 10)) s) acc
                ltac:(now apply N.neq_0_lt_0))
      as [k Hk].
    rewrite Hk. simpl. rewrite digit_val_pretty by exact Hlt.
    exists (k + 1)%N. f_equal.
    rewrite N.pow_add_r, N.pow_1_r. lia.
Qed.

Lemma parseInt_decimal s :
  decimal s = true -> s <> "" ->
  JS.parseInt_string s = JS.of_Z (Z.of_N (JS.digits_acc 10 0 s)) /\
  JS.parseInt_string (String "-" s)
  = JS.of_Z (- Z.of_N (JS.digits_acc 10 0 s)).
Proof.
  intros Hs Hne.
  destruct s as [|c s]; [congruence|clear Hne].
  simpl in Hs. apply andb_prop in Hs as [Hc Hs].
  assert (exists d, (d < 10)%N /\ c = ascii_of_N (48 + d)) as (d & Hd & ->).
  { exists (N_of_ascii c - 48)%N.
    apply andb_prop in Hc as [H1 H2].
    apply N.leb_le in H1, H2. split; [lia|].
    replace (48 + (N_of_ascii c - 48))%N with (N_of_ascii c) by lia.
    now rewrite ascii_N_embedding. }
  assert (d = 0 \/ d = 1 \/ d = 2 \/ d = 3 \/ d = 4 \/ d = 5 \/ d = 6 \/
          d = 7 \/ d = 8 \/ d = 9)%N as H by lia.
  destruct s as [|c2 s].
  { repeat (destruct H as [->|H]); try subst d; split; reflexivity. }
  simpl in Hs. apply andb_prop in Hs as [Hc2 Hs].
  assert (c2 <> "x"%char /\ c2 <> "X"%char) as [Hx HX].
  { split; intros ->; discriminate Hc2. }
  repeat (destruct H as [->|H]); try subst d;
    unfold JS.parseInt_string; simpl;
    (split; [|reflexivity || idtac]).
  all: try reflexivity.
  all: destruct c2 as [[] [] [] [] [] [] [] []]; try reflexivity; congruence.
Qed.

Lemma pretty_pos_spec (p : positive) :
  decimal (pretty (N.pos p)) = true /\ pretty (N.pos p) <> "" /\
  JS.digits_acc 10 0 (pretty (N.pos p)) = N.pos p.
Proof.
  unfold pretty, pretty_N. destruct (decide (N.pos p = 0%N)) as [?|_]; [lia|].
  split; [now apply pretty_N_go_decimal|split].
  - destruct (pretty_N_go_cons (N.pos p) "" ltac:(lia)) as (c & s' & ->).
    discriminate.
  - destruct (digits_acc_pretty (N.pos p) "" 0%N ltac:(lia)) as [k ->].
    reflexivity.
Qed.

(** [parseInt] reads back what [toString] prints. *)
Lemma parseInt_pretty (z : Z) : JS.parseInt_string (pretty z) = JS.of_Z z.
Proof.
  destruct z as [|p|p]; [reflexivity| |].
  - destruct (pretty_pos_spec p) as (Hd & Hne & Hv).
    change (pretty (Z.pos p)) with (pretty (N.pos p)).
    rewrite (proj1 (parseInt_decimal _ Hd Hne)), Hv. reflexivity.
  - destruct (pretty_pos_spec p) as (Hd & Hne & Hv).
    change (pretty (Z.neg p)) with (String "-" (pretty (N.pos p))).
    rewrite (proj2 (parseInt_decimal _ Hd Hne)), Hv. reflexivity.
Qed.

Lemma pretty_Z_nonempty (z : Z) : String.eqb (pretty z) "" = false.
Proof.
  destruct z as [|p|p]; [reflexivity| |reflexivity].
  destruct (pretty_pos_spec p) as (_ & Hne & _).
  change (pretty (Z.pos p)) with (pretty (N.pos p)).
  destruct (pretty (N.pos p)); [congruence|reflexivity].
Qed.

Lemma parseInt_VNum (z : Z) : JS.parseInt (JS.VNum z) = JS.of_Z z.
Proof. apply parseInt_pretty. Qed.

Lemma of_Z_safe (z : Z) : JS.is_safe z -> JS.of_Z z = JS.Int z.
Proof.
  unfold JS.is_safe, JS.of_Z, JS.safeb. intros [H1 H2].
  apply Z.leb_le in H1, H2. now rewrite H1, H2.
Qed.

Lemma int_val_range (c : sql_int) : INT_MIN <= int_val c <= INT_MAX.
Proof.
  destruct c as [z Hz]. simpl. unfold in_INT in Hz.
  apply Is_true_true, andb_prop in Hz as [H1 H2].
  apply Z.leb_le in H1, H2. lia.
Qed.

Lemma in_INT_range (z : Z) : Is_true (in_INT z) <-> INT_MIN <= z <= INT_MAX.
Proof.
  unfold in_INT. rewrite Is_true_true, andb_true_iff, !Z.leb_le. tauto.
Qed.

Lemma to_INT_Some (z : Z) :
  INT_MIN <= z <= INT_MAX -> exists c, to_INT z = Some c /\ int_val c = z.
Proof.
  intros Hz. unfold to_INT.
  destruct (decide (Is_true (in_INT z))) as [H|H].
  - eexists. split; reflexivity.
  - now apply (proj2 (in_INT_range z)) in Hz.
Qed.

Lemma to_INT_None (z : Z) : INT_MAX < z -> to_INT z = None.
Proof.
  intros Hz. unfold to_INT.
  destruct (decide (Is_true (in_INT z))) as [H|H]; [|reflexivity].
  pose proof (proj1 (in_INT_range z) H). lia.
Qed.

(** ** The handler stage by stage *)

Lemma all_ok_hd sc : all_ok sc -> ok (hd calm sc) = true.
Proof. destruct 1; [reflexivity|assumption]. Qed.

Lemma all_ok_tl sc : all_ok sc -> all_ok (tl sc).
Proof. destruct 1; [constructor|assumption]. Qed.

Lemma run_at_del tv sc w :
  run (at_del tv) sc w =
  let w1 := tick (delay (hd calm sc)) w in
  if ok (hd calm sc)
  then Result (Some (Render (JS.add1 (JS.parseInt tv))))
              (World (now w1) (redis_del (redis w1) cacheKey) (mysql w1))
              [(RedisDel cacheKey, true)]
  else Result (Some ServerError) w1 [(RedisDel cacheKey, false)].
Proof.
  unfold at_del; simpl; unfold perform. now destruct (ok (hd calm sc)).
Qed.

Lemma run_at_update tv sc w :
  run (at_update tv) sc w =
  let w1 := tick (delay (hd calm sc)) w in
  match (if ok (hd calm sc) then increment_count (mysql w1) else None) with
  | Some d =>
      after (MysqlIncrementCount, true)
            (run (at_del tv) (tl sc) (World (now w1) (redis w1) d))
  | None => Result (Some ServerError) w1 [(MysqlIncrementCount, false)]
  end.
Proof.
  unfold at_update; simpl run; unfold perform.
  destruct (ok (hd calm sc)); [|reflexivity].
  simpl. now destruct (increment_count (mysql w)).
Qed.

Lemma run_at_setEx tv s sc w :
  run (at_setEx tv s) sc w =
  let w1 := tick (delay (hd calm sc)) w in
  if ok (hd calm sc)
  then after (RedisSetEx cacheKey 60 s, true)
         (run (at_update tv) (tl sc)
            (World (now w1)
                   (<[cacheKey := Entry s (now w1 + 60000)]> (redis w1))
                   (mysql w1)))
  else Result (Some ServerError) w1 [(RedisSetEx cacheKey 60 s, false)].
Proof.
  unfold at_setEx; simpl run; unfold perform.
  now destruct (ok (hd calm sc)).
Qed.

Lemma run_at_select sc w :
  run at_select sc w =
  let w1 := tick (delay (hd calm sc)) w in
  if ok (hd calm sc)
  then after (MysqlSelectCount, true)
         (run (after_select (select_count (mysql w1))) (tl sc) w1)
  else Result (Some ServerError) w1 [(MysqlSelectCount, false)].
Proof.
  unfold at_select; simpl run; unfold perform.
  now destruct (ok (hd calm sc)).
Qed.

Lemma run_at_get sc w :
  run at_get sc w =
  let w1 := tick (delay (hd calm sc)) w in
  if ok (hd calm sc)
  then after (RedisGet cacheKey, true)
         (run (after_get (cached w1 cacheKey)) (tl sc) w1)
  else Result (Some ServerError) w1 [(RedisGet cacheKey, false)].
Proof.
  unfold at_get; simpl run; unfold perform.
  now destruct (ok (hd calm sc)).
Qed.

(** What the handler reads on a miss: the count of row 1, and 0 when the
    row is missing or its count is [NULL]. *)
Lemma after_select_count d :
  after_select (select_count d) =
  let c := from_option id 0 (db_count d) in
  at_setEx (JS.VNum c) (pretty c).
Proof.
  unfold after_select, select_count, db_count.
  destruct (visitor_count d !! 1) as [[c|]|]; simpl; try reflexivity.
  unfold JS.or; simpl. destruct (Z.eqb_spec (int_val c) 0) as [->|]; reflexivity.
Qed.

Lemma step_same {A : Type} (p q : prog A) e w :
  same p q ->
  same (step e p w).1.1 (step e q w).1.1 /\
  (step e p w).1.2 = (step e q w).1.2 /\ (step e p w).2 = (step e q w).2.
Proof.
  destruct 1 as [a| |o k k' h h' Hk Hh]; simpl.
  - repeat split. constructor.
  - repeat split. constructor.
  - destruct (perform e o w) as [[r|] w']; simpl; auto.
Qed.

Lemma steps_same {A : Type} n : forall (p q : prog A) sc w,
  same p q ->
  same (steps n p sc w).1.1 (steps n q sc w).1.1 /\
  (steps n p sc w).1.2 = (steps n q sc w).1.2 /\
  (steps n p sc w).2 = (steps n q sc w).2.
Proof.
  induction n as [|n IH]; intros p q sc w Hpq; simpl; [auto|].
  destruct (step_same p q (hd calm sc) w Hpq) as (Hs & Hw & Ht).
  destruct (step (hd calm sc) p w) as [[p1 w1] t1].
  destruct (step (hd calm sc) q w) as [[q1 w2] t2].
  simpl in Hs, Hw, Ht. subst w2 t2.
  destruct (IH p1 q1 (tl sc) w1 Hs) as (Hs' & Hw' & Ht').
  destruct (steps n p1 (tl sc) w1) as [[p2 w3] t3].
  destruct (steps n q1 (tl sc) w1) as [[q2 w4] t4].
  simpl in *. subst. auto.
Qed.

Lemma all_ok_firstn n sc :
  all_ok (firstn (S n) sc) ->
  ok (hd calm sc) = true /\ all_ok (firstn n (tl sc)).
Proof.
  destruct sc as [|e sc]; simpl.
  - intros _. split; [reflexivity|]. destruct n; constructor.
  - intros H. inversion H; subst. auto.
Qed.

(** ** The two services *)

Lemma cached_later w key d :
  cached w key = None -> cached (tick d w) key = None.
Proof.
  unfold cached, redis_get, tick; simpl.
  destruct (redis w !! key) as [e|]; [|reflexivity].
  destruct (N.ltb_spec (now w) (expires e)); [discriminate|].
  intros _. destruct (N.ltb_spec (now w + d) (expires e)); [lia|reflexivity].
Qed.

Lemma cached_absent w key : redis w !! key = None -> cached w key = None.
Proof. unfold cached, redis_get. now intros ->. Qed.

Lemma db_count_range d c : db_count d = Some c -> INT_MIN <= c <= INT_MAX.
Proof.
  unfold db_count. destruct (visitor_count d !! 1) as [[x|]|]; try discriminate.
  intros [= <-]. apply int_val_range.
Qed.

(** With room in the column the statement adds one, whatever the mode. *)
Lemma increment_count_room d c :
  db_count d = Some c -> c < INT_MAX ->
  exists d', increment_count d = Some d' /\ db_count d' = Some (c + 1) /\
             strict d' = strict d.
Proof.
  intros Hc Hlt. pose proof (db_count_range d c Hc) as Hr.
  unfold db_count in Hc. unfold increment_count.
  destruct (visitor_count d !! 1) as [[x|]|]; try discriminate.
  injection Hc as <-.
  destruct (to_INT_Some (int_val x + 1) ltac:(lia)) as (c' & -> & Hv).
  eexists. split; [reflexivity|]. split; [|reflexivity].
  unfold db_count; simpl. rewrite lookup_insert_eq. now rewrite Hv.
Qed.

(** At the top of the column the statement is an error in strict mode and
    changes nothing otherwise. *)
Lemma increment_count_full d :
  db_count d = Some INT_MAX ->
  if strict d then increment_count d = None
  else exists d', increment_count d = Some d' /\ db_count d' = Some INT_MAX.
Proof.
  unfold db_count, increment_count.
  destruct (visitor_count d !! 1) as [[x|]|]; try discriminate.
  intros [= Hx]. rewrite to_INT_None by lia.
  destruct (strict d); [reflexivity|].
  eexists. split; [reflexivity|]. simpl. now rewrite lookup_insert_eq.
Qed.


(** The count never goes down, and goes up by one at most. *)
Lemma increment_count_mono d d' c :
  increment_count d = Some d' -> db_count d = Some c ->
  exists c', db_count d' = Some c' /\ c <= c' <= c + 1.
Proof.
  intros Hi Hc. pose proof (db_count_range d c Hc) as Hr.
  destruct (Z.eq_dec c INT_MAX) as [->|Hne].
  - pose proof (increment_count_full d Hc) as Hf.
    destruct (strict d); [congruence|].
    destruct Hf as (d'' & Hd'' & Hc''). exists INT_MAX.
    split; [congruence|lia].
  - destruct (increment_count_room d c Hc ltac:(lia)) as (d'' & Hd'' & Hc'' & _).
    exists (c + 1). split; [congruence|lia].
Qed.

(** ** Runs without failures *)

(** A miss: five commands, and the total shown is the count read plus one. *)
Lemma run_miss sc w d :
  all_ok sc ->
  JS.truthy (get_value (cached (tick (delay (hd calm sc)) w) cacheKey)) = false ->
  increment_count (mysql w) = Some d ->
  let c := from_option id 0 (store_count w) in
  let x := run handler sc w in
  returned x = Some (Render (JS.add1 (JS.of_Z c))) /\
  trace x = [(RedisGet cacheKey, true); (MysqlSelectCount, true);
             (RedisSetEx cacheKey 60 (pretty c), true);
             (MysqlIncrementCount, true); (RedisDel cacheKey, true)] /\
  mysql (final x) = d /\
  redis (final x) = delete cacheKey (redis w).
Proof.
  intros Hok Hmiss Hinc. cbv zeta.
  pose proof (all_ok_tl _ Hok) as Hok1.
  pose proof (all_ok_tl _ Hok1) as Hok2.
  pose proof (all_ok_tl _ Hok2) as Hok3.
  pose proof (all_ok_tl _ Hok3) as Hok4.
  rewrite run_handler, run_at_get. cbv zeta.
  rewrite (all_ok_hd _ Hok). unfold after_get. rewrite Hmiss.
  rewrite run_at_select. cbv zeta. rewrite (all_ok_hd _ Hok1).
  rewrite after_select_count. cbv zeta.
  rewrite run_at_setEx. cbv zeta. rewrite (all_ok_hd _ Hok2).
  rewrite run_at_update. cbv zeta. rewrite (all_ok_hd _ Hok3).
  cbn [tick mysql redis now]. rewrite Hinc.
  rewrite run_at_del. cbv zeta. rewrite (all_ok_hd _ Hok4).
  cbn [after returned final trace tick now redis mysql].
  rewrite parseInt_VNum.
  repeat split. unfold redis_del. apply delete_insert_eq.
Qed.

(** A hit: three commands, and the total shown is the cached value read as
    a number, plus one. *)
Lemma run_hit sc w d s :
  all_ok sc ->
  cached (tick (delay (hd calm sc)) w) cacheKey = Some s ->
  s <> "" ->
  increment_count (mysql w) = Some d ->
  let x := run handler sc w in
  returned x = Some (Render (JS.add1 (JS.parseInt_string s))) /\
  trace x = [(RedisGet cacheKey, true); (MysqlIncrementCount, true);
             (RedisDel cacheKey, true)] /\
  mysql (final x) = d /\
  redis (final x) = delete cacheKey (redis w).
Proof.
  intros Hok Hhit Hne Hinc. cbv zeta.
  pose proof (all_ok_tl _ Hok) as Hok1.
  pose proof (all_ok_tl _ Hok1) as Hok2.
  rewrite run_handler, run_at_get. cbv zeta.
  rewrite (all_ok_hd _ Hok). unfold after_get. rewrite Hhit.
  assert (JS.truthy (get_value (Some s)) = true) as ->.
  { simpl. destruct s; [congruence|reflexivity]. }
  rewrite run_at_update. cbv zeta. rewrite (all_ok_hd _ Hok1).
  cbn [tick mysql redis now]. rewrite Hinc.
  rewrite run_at_del. cbv zeta. rewrite (all_ok_hd _ Hok2).
  cbn [after returned final trace tick now redis mysql].
  repeat split.
Qed.

Lemma steps_miss sc w :
  all_ok (firstn 3 sc) ->
  JS.truthy (get_value (cached (tick (delay (hd calm sc)) w) cacheKey)) = false ->
  let c := from_option id 0 (store_count w) in
  let s := steps 3 handler sc w in
  s.2 = [(RedisGet cacheKey, true); (MysqlSelectCount, true);
         (RedisSetEx cacheKey 60 (pretty c), true)] /\
  redis s.1.2 = <[cacheKey := Entry (pretty c) (now s.1.2 + 60000)]> (redis w) /\
  mysql s.1.2 = mysql w.
Proof.
  intros Hok Hmiss. cbv zeta.
  destruct (steps_same 3 handler at_get sc w handler_same) as (_ & -> & ->).
  apply all_ok_firstn in Hok as [H1 Hok].
  apply all_ok_firstn in Hok as [H2 Hok].
  apply all_ok_firstn in Hok as [H3 _].
  unfold steps, step, at_get, perform. rewrite H1.
  cbn [exec]. fold (cached (tick (delay (hd calm sc)) w) cacheKey).
  unfold after_get. rewrite Hmiss.
  unfold at_select. rewrite H2. cbn [exec tick mysql].
  rewrite after_select_count. cbv zeta. unfold at_setEx. rewrite H3.
  cbn. auto.
Qed.

Lemma safe_INT c : INT_MIN <= c <= INT_MAX + 1 -> JS.is_safe c.
Proof. unfold JS.is_safe, JS.MAX_SAFE_INTEGER, INT_MIN, INT_MAX. lia. Qed.

Lemma add1_count c :
  INT_MIN <= c <= INT_MAX -> JS.add1 (JS.of_Z c) = JS.Int (c + 1).
Proof.
  intros H. rewrite of_Z_safe by (apply safe_INT; lia). simpl.
  apply of_Z_safe, safe_INT. lia.
Qed.

Lemma totals_S initial n :
  totals initial (S n)
  = Some (Render (JS.Int (initial + 1))) :: totals (initial + 1) n.
Proof.
  unfold totals. simpl. f_equal.
  rewrite <- seq_shift, map_map. apply map_ext.
  intros i. do 3 f_equal. lia.
Qed.

(** ** Sequential calls *)

(** C2: with no live cache entry for [page_views_total] and the store
    holding 7, a call without failures returns 8; it sends GET, SELECT,
    SETEX with the value 7 and 60 seconds, UPDATE and DEL in this order;
    after the SETEX the cache holds 7, at the end the entry is deleted, and
    the store holds 8. *)
Theorem C2_miss_at_seven (sc : list env) (w : world) :
  cached w cacheKey = None ->
  store_count w = Some 7 ->
  all_ok sc ->
  let x := run handler sc w in
  returned x = Some (Render (JS.Int 8)) /\
  trace x = [(RedisGet cacheKey, true); (MysqlSelectCount, true);
             (RedisSetEx cacheKey 60 "7", true);
             (MysqlIncrementCount, true); (RedisDel cacheKey, true)] /\
  cached (steps 3 handler sc w).1.2 cacheKey = Some "7" /\
  redis (final x) !! cacheKey = None /\
  store_count (final x) = Some 8.
Proof.
  intros Hc Hs Hok. cbv zeta.
  assert (JS.truthy (get_value (cached (tick (delay (hd calm sc)) w) cacheKey))
          = false) as Hmiss by now rewrite cached_later.
  destruct (increment_count_room (mysql w) 7 Hs ltac:(unfold INT_MAX; lia))
    as (d & Hd & Hd' & _).
  destruct (run_miss sc w d Hok Hmiss Hd) as (Hr & Ht & Hm & Hredis).
  destruct (steps_miss sc w) as (_ & Hr3 & _).
  { clear -Hok. unfold all_ok in *. now apply Forall_take. }
  { exact Hmiss. }
  rewrite Hs in Hr, Ht, Hr3.
  repeat split.
  - exact Hr.
  - exact Ht.
  - generalize dependent (steps 3 handler sc w).1.2. intros w3 Hr3.
    unfold cached, redis_get. rewrite Hr3, lookup_insert_eq.
    cbn [value expires].
    destruct (N.ltb_spec (now w3) (now w3 + 60000)); [reflexivity|lia].
  - rewrite Hredis. apply lookup_delete_eq.
  - unfold store_count. now rewrite Hm.
Qed.

Lemma C2_witness :
  cached (world_of 7 true) cacheKey = None /\
  store_count (world_of 7 true) = Some 7 /\
  all_ok [Env 20 true; Env 3 true] /\
  let x := run handler [Env 20 true; Env 3 true] (world_of 7 true) in
  returned x = Some (Render (JS.Int 8)) /\
  trace x = [(RedisGet cacheKey, true); (MysqlSelectCount, true);
             (RedisSetEx cacheKey 60 "7", true);
             (MysqlIncrementCount, true); (RedisDel cacheKey, true)] /\
  cached (steps 3 handler [Env 20 true; Env 3 true] (world_of 7 true)).1.2
         cacheKey = Some "7" /\
  redis (final x) !! cacheKey = None /\
  store_count (final x) = Some 8.
Proof.
  assert (all_ok [Env 20 true; Env 3 true]) as Hok
    by (repeat constructor).
  split; [reflexivity|]. split; [reflexivity|]. split; [exact Hok|].
  apply (C2_miss_at_seven [Env 20 true; Env 3 true] (world_of 7 true));
    [reflexivity|reflexivity|exact Hok].
Defined.

(** C7: on a cache miss the handler reads the count from the store, takes
    0 when row 1 is missing (or its count is NULL), and writes the decimal
    text of that value under [page_views_total] with a time to live of 60
    seconds: after the first three commands the entry holds the value and
    expires 60000 ms later, and the store is untouched. *)
Theorem C7_miss_populates_cache (sc : list env) (w : world) :
  cached w cacheKey = None ->
  all_ok (firstn 3 sc) ->
  let c := from_option id 0 (store_count w) in
  let s := steps 3 handler sc w in
  (visitor_count (mysql w) !! 1 = None -> c = 0) /\
  s.2 = [(RedisGet cacheKey, true); (MysqlSelectCount, true);
         (RedisSetEx cacheKey 60 (pretty c), true)] /\
  redis s.1.2 !! cacheKey = Some (Entry (pretty c) (now s.1.2 + 60 * 1000)) /\
  mysql s.1.2 = mysql w.
Proof.
  intros Hc Hok. cbv zeta.
  destruct (steps_miss sc w Hok) as (Ht & Hr & Hm).
  { now rewrite cached_later. }
  split; [|split; [exact Ht|split; [|exact Hm]]].
  - unfold store_count, db_count. now intros ->.
  - rewrite Hr. apply lookup_insert_eq.
Qed.

Lemma C7_witness :
  let w := World 5 ∅ (Database ∅ true) in
  let sc := [Env 1 true; Env 2 true; Env 3 true; Env 0 false] in
  cached w cacheKey = None /\
  all_ok (firstn 3 sc) /\
  (steps 3 handler sc w).2
  = [(RedisGet cacheKey, true); (MysqlSelectCount, true);
     (RedisSetEx cacheKey 60 "0", true)] /\
  redis (steps 3 handler sc w).1.2 !! cacheKey = Some (Entry "0" 60011).
Proof.
  cbv zeta.
  assert (all_ok (firstn 3 [Env 1 true; Env 2 true; Env 3 true; Env 0 false]))
    as Hok by (repeat constructor).
  assert (cached (World 5 ∅ (Database ∅ true)) cacheKey = None) as Hc
    by reflexivity.
  split; [exact Hc|]. split; [exact Hok|].
  destruct (C7_miss_populates_cache _ _ Hc Hok) as (_ & Ht & Hr & _).
  split; [exact Ht|exact Hr].
Defined.

(** C3 (amended): when the GET of a call finds an unexpired entry that
    holds the decimal text of an integer V below 2^53 - 1 in magnitude,
    and the store's count c is below 2147483647, a call without failures
    returns V + 1 whatever c is, does not read the store, and leaves the
    store's count at c + 1. *)
Theorem C3_hit_shows_cached_plus_one (V c : Z) (sc : list env) (w : world) :
  cached (tick (delay (hd calm sc)) w) cacheKey = Some (pretty V) ->
  - JS.MAX_SAFE_INTEGER <= V < JS.MAX_SAFE_INTEGER ->
  store_count w = Some c ->
  c < INT_MAX ->
  all_ok sc ->
  let x := run handler sc w in
  returned x = Some (Render (JS.Int (V + 1))) /\
  trace x = [(RedisGet cacheKey, true); (MysqlIncrementCount, true);
             (RedisDel cacheKey, true)] /\
  store_count (final x) = Some (c + 1).
Proof.
  intros Hhit HV Hc Hlt Hok. cbv zeta.
  destruct (increment_count_room (mysql w) c Hc Hlt) as (d & Hd & Hd' & _).
  assert (pretty V <> "") as Hne.
  { intros E. pose proof (pretty_Z_nonempty V) as H. now rewrite E in H. }
  destruct (run_hit sc w d (pretty V) Hok Hhit Hne Hd) as (Hr & Ht & Hm & _).
  split; [|split; [exact Ht|]].
  - rewrite Hr, parseInt_pretty, of_Z_safe by (unfold JS.is_safe; lia).
    simpl. rewrite of_Z_safe by (unfold JS.is_safe; lia). reflexivity.
  - unfold store_count. now rewrite Hm.
Qed.

Lemma C3_witness :
  let w := stale "41" (world_of 7 true) in
  cached (tick (delay (hd calm [])) w) cacheKey = Some (pretty 41) /\
  - JS.MAX_SAFE_INTEGER <= 41 < JS.MAX_SAFE_INTEGER /\
  store_count w = Some 7 /\
  7 < INT_MAX /\
  all_ok [] /\
  returned (run handler [] w) = Some (Render (JS.Int 42)) /\
  store_count (final (run handler [] w)) = Some 8.
Proof.
  cbv zeta.
  assert (cached (tick (delay (hd calm [])) (stale "41" (world_of 7 true)))
                 cacheKey = Some (pretty 41)) as Hhit by reflexivity.
  assert (- JS.MAX_SAFE_INTEGER <= 41 < JS.MAX_SAFE_INTEGER) as HV
    by (unfold JS.MAX_SAFE_INTEGER; lia).
  assert (store_count (stale "41" (world_of 7 true)) = Some 7) as Hc
    by reflexivity.
  assert (7 < INT_MAX) as Hlt by reflexivity.
  assert (all_ok []) as Hok by constructor.
  destruct (C3_hit_shows_cached_plus_one 41 7 [] _ Hhit HV Hc Hlt Hok)
    as (Hr & _ & Hs).
  repeat split; try assumption; try apply HV.
Defined.

(** C3 as stated fails: with 5 in the cache and the store's count at the
    top of the INT column, the call ends in the server error in strict
    mode (nothing is returned), and leaves the count where it was
    otherwise; and with 2^53 in the cache the number shown is not
    2^53 + 1. *)
Lemma C3_fails :
  (let w := stale "5" (world_of 2147483647 true) in
   cached w cacheKey = Some "5" /\ store_count w = Some 2147483647 /\
   returned (run handler [] w) = Some ServerError) /\
  (let w := stale "5" (world_of 2147483647 false) in
   cached w cacheKey = Some "5" /\ store_count w = Some 2147483647 /\
   store_count (final (run handler [] w)) = Some 2147483647) /\
  (let w := stale "9007199254740992" (world_of 7 true) in
   cached w cacheKey = Some "9007199254740992" /\
   returned (run handler [] w) <> Some (Render (JS.Int 9007199254740993))).
Proof.
  cbv zeta. repeat split; try reflexivity. discriminate.
Qed.

(** C1 (amended): starting with no live cache entry for
    [page_views_total] and with the store's count at [initial], the calls
    of a sequence of N calls without failures, N at most
    2147483647 - initial, return initial + 1, ..., initial + N, and leave
    the count at initial + N. *)
Theorem C1_sequential_totals (scs : list (list env)) :
  forall (initial : Z) (w : world),
  store_count w = Some initial ->
  cached w cacheKey = None ->
  initial + Z.of_nat (List.length scs) <= INT_MAX ->
  Forall all_ok scs ->
  (serve_all scs w).1 = totals initial (List.length scs) /\
  store_count (serve_all scs w).2 = Some (initial + Z.of_nat (List.length scs)) /\
  cached (serve_all scs w).2 cacheKey = None.
Proof.
  induction scs as [|sc scs IH]; intros initial w Hs Hc Hle Hok.
  - simpl. rewrite Z.add_0_r. auto.
  - inversion Hok as [|? ? Hsc Hscs]; subst.
    pose proof (db_count_range _ _ Hs) as Hr.
    assert (initial < INT_MAX) as Hlt by (cbn [List.length] in Hle; lia).
    destruct (increment_count_room (mysql w) initial Hs Hlt)
      as (d & Hd & Hd' & _).
    destruct (run_miss sc w d Hsc) as (Hret & _ & Hm & Hredis);
      [now rewrite cached_later|exact Hd|].
    rewrite Hs in Hret. cbn [from_option id] in Hret.
    rewrite add1_count in Hret by exact Hr.
    destruct (IH (initial + 1) (final (run handler sc w))) as (IH1 & IH2 & IH3).
    + unfold store_count. now rewrite Hm.
    + apply cached_absent. rewrite Hredis. apply lookup_delete_eq.
    + cbn [List.length] in Hle. lia.
    + exact Hscs.
    + cbn [serve_all].
      destruct (serve_all scs (final (run handler sc w))) as [rs w'].
      cbn [fst snd List.length] in *. rewrite totals_S, Hret, IH1, IH2.
      repeat split; [f_equal; lia|exact IH3].
Qed.

Lemma C1_witness :
  let w := world_of 2147483644 true in
  let scs := [[]; [Env 7 true]; []] in
  store_count w = Some 2147483644 /\
  cached w cacheKey = None /\
  2147483644 + Z.of_nat (List.length scs) <= INT_MAX /\
  Forall all_ok scs /\
  (serve_all scs w).1
  = [Some (Render (JS.Int 2147483645)); Some (Render (JS.Int 2147483646));
     Some (Render (JS.Int 2147483647))].
Proof.
  cbv zeta.
  assert (store_count (world_of 2147483644 true) = Some 2147483644) as Hs
    by reflexivity.
  assert (cached (world_of 2147483644 true) cacheKey = None) as Hc
    by reflexivity.
  assert (2147483644 + Z.of_nat (List.length [[]; [Env 7 true]; []]) <= INT_MAX)
    as Hle by (unfold INT_MAX; simpl; lia).
  assert (Forall all_ok [[]; [Env 7 true]; []]) as Hok
    by (repeat constructor).
  destruct (C1_sequential_totals _ _ _ Hs Hc Hle Hok) as (H & _).
  repeat split; assumption.
Defined.

(** C1 as stated fails: at the top of the INT column two calls end in the
    server error in strict mode and show the same total otherwise; and a
    live cache entry that differs from the store's count decides the first
    total. *)
Lemma C1_fails :
  (serve_all [[]; []] (world_of 2147483647 true)).1
    = [Some ServerError; Some ServerError] /\
  (serve_all [[]; []] (world_of 2147483647 false)).1
    = [Some (Render (JS.Int 2147483648)); Some (Render (JS.Int 2147483648))] /\
  totals 2147483647 2
    = [Some (Render (JS.Int 2147483648)); Some (Render (JS.Int 2147483649))] /\
  store_count (stale "5" (world_of 7 true)) = Some 7 /\
  (serve_all [[]] (stale "5" (world_of 7 true))).1 = [Some (Render (JS.Int 6))] /\
  totals 7 1 = [Some (Render (JS.Int 8))].
Proof. repeat split; reflexivity. Qed.

(** ** Every run of the handler, failures included *)

(** Follow the handler through its stages, splitting on what the script
    and the services decide. *)
Ltac walk :=
  rewrite run_handler;
  repeat first
    [ rewrite run_at_get
    | rewrite run_at_select
    | rewrite after_select_count
    | rewrite run_at_setEx
    | rewrite run_at_update
    | rewrite run_at_del
    | progress cbv zeta
    | progress unfold after_get
    | progress cbn [after returned final trace tick now redis mysql]
    | match goal with
      | |- context [if ok ?e then _ else _] => destruct (ok e) eqn:?
      | |- context [if JS.truthy ?v then _ else _] =>
          destruct (JS.truthy v) eqn:?
      | |- context [match increment_count ?d with _ => _ end] =>
          destruct (increment_count d) eqn:?
      end ].

(** C4: after every call that succeeds the entry of [page_views_total] is
    gone from the cache, and the last command the handler sent is the DEL
    of that key, carried out. *)
Theorem C4_cache_absent_after_success (sc : list env) (w : world)
    (n : JS.number) :
  let x := run handler sc w in
  returned x = Some (Render n) ->
  redis (final x) !! cacheKey = None /\
  cached (final x) cacheKey = None /\
  last (trace x) = Some (RedisDel cacheKey, true).
Proof.
  walk; intros H; try discriminate H;
    (split; [|split; [apply cached_absent|reflexivity]]);
    apply lookup_delete_eq.
Qed.

Lemma C4_witness :
  let x := run handler [] (stale "41" (world_of 7 false)) in
  returned x = Some (Render (JS.Int 42)) /\
  redis (final x) !! cacheKey = None /\
  cached (final x) cacheKey = None /\
  last (trace x) = Some (RedisDel cacheKey, true).
Proof.
  cbv zeta.
  assert (returned (run handler [] (stale "41" (world_of 7 false)))
          = Some (Render (JS.Int 42))) as H by reflexivity.
  split; [exact H|].
  exact (C4_cache_absent_after_success [] _ _ H).
Defined.

(** C5: when a command to the store fails during a call (the store is not
    reached, or the statement is an error), the caller gets the server
    error; the failed command is the last one sent, so no DEL is sent; the
    store is as before; and the cache is as before, but for the entry a
    SETEX carried out before the failure has written. *)
Theorem C5_store_failure (sc : list env) (w : world) :
  let x := run handler sc w in
  In (MysqlSelectCount, false) (trace x) \/
  In (MysqlIncrementCount, false) (trace x) ->
  returned x = Some ServerError /\
  mysql (final x) = mysql w /\
  (forall key b, ~ In (RedisDel key, b) (trace x)) /\
  ((trace x = [(RedisGet cacheKey, true); (MysqlSelectCount, false)] /\
    redis (final x) = redis w) \/
   (trace x = [(RedisGet cacheKey, true); (MysqlIncrementCount, false)] /\
    redis (final x) = redis w) \/
   (exists s t,
      trace x = [(RedisGet cacheKey, true); (MysqlSelectCount, true);
                 (RedisSetEx cacheKey 60 s, true);
                 (MysqlIncrementCount, false)] /\
      redis (final x) = <[cacheKey := Entry s t]> (redis w))).
Proof.
  walk; simpl; intros H;
    try (exfalso; clear -H; intuition discriminate);
    (split; [reflexivity|split; [reflexivity|split]]);
    try (intros key b Hin; clear -Hin; intuition discriminate);
    eauto 8.
Qed.

Lemma C5_witness :
  let sc := [calm; calm; calm; Env 0 false] in
  let x := run handler sc (world_of 7 true) in
  (In (MysqlSelectCount, false) (trace x) \/
   In (MysqlIncrementCount, false) (trace x)) /\
  returned x = Some ServerError /\
  mysql (final x) = mysql (world_of 7 true) /\
  (forall key b, ~ In (RedisDel key, b) (trace x)).
Proof.
  cbv zeta.
  assert (In (MysqlSelectCount, false)
             (trace (run handler [calm; calm; calm; Env 0 false]
                         (world_of 7 true))) \/
          In (MysqlIncrementCount, false)
             (trace (run handler [calm; calm; calm; Env 0 false]
                         (world_of 7 true)))) as H.
  { right. vm_compute. auto. }
  split; [exact H|].
  destruct (C5_store_failure _ _ H) as (H1 & H2 & H3 & _).
  auto.
Defined.

(** C6 (amended): when a command to the cache fails during a call (GET,
    SETEX or DEL), the caller gets the server error; there is no fall
    through to the store: after a failed GET no further command is sent
    and the store is as before. *)
Theorem C6_cache_failure_is_fatal (sc : list env) (w : world) (o : op) :
  let x := run handler sc w in
  is_redis o = true ->
  In (o, false) (trace x) ->
  returned x = Some ServerError /\
  (In (RedisGet cacheKey, false) (trace x) ->
   trace x = [(RedisGet cacheKey, false)] /\ mysql (final x) = mysql w).
Proof.
  walk; simpl; intros Ho H;
    try (exfalso; clear -Ho H; destruct o;
         try discriminate Ho; intuition discriminate);
    (split; [reflexivity|]); intros Hg;
    try (exfalso; clear -Hg; intuition discriminate);
    auto.
Qed.

Lemma C6_witness :
  let x := run handler [calm; calm; Env 9 false] (world_of 7 true) in
  is_redis (RedisSetEx cacheKey 60 "7") = true /\
  In (RedisSetEx cacheKey 60 "7", false) (trace x) /\
  returned x = Some ServerError.
Proof.
  cbv zeta.
  assert (In (RedisSetEx cacheKey 60 "7", false)
             (trace (run handler [calm; calm; Env 9 false] (world_of 7 true))))
    as H by (vm_compute; auto).
  split; [reflexivity|]. split; [exact H|].
  exact (proj1 (C6_cache_failure_is_fatal
                  [calm; calm; Env 9 false] (world_of 7 true)
                  (RedisSetEx cacheKey 60 "7") eq_refl H)).
Defined.

(** C6 as stated fails: with the cache out of reach at the GET, the call
    does not succeed; the caller gets the server error and the store is
    neither read nor incremented. *)
Lemma C6_fails :
  let x := run handler [Env 0 false] (world_of 7 true) in
  trace x = [(RedisGet cacheKey, false)] /\
  returned x = Some ServerError /\
  store_count (final x) = Some 7.
Proof. cbv zeta. repeat split; reflexivity. Qed.

(** C8: whatever fails or not, a call leaves the store's count at least
    where it was, and at most one higher. *)
Theorem C8_count_monotone (sc : list env) (w : world) (c : Z) :
  store_count w = Some c ->
  exists c', store_count (final (run handler sc w)) = Some c' /\
             c <= c' <= c + 1.
Proof.
  unfold store_count. revert c.
  walk; intros c Hc;
    try (exists c; split; [exact Hc|lia]);
    match goal with
    | H : increment_count _ = Some _ |- _ =>
        exact (increment_count_mono _ _ _ H Hc)
    end.
Qed.

Lemma C8_witness :
  store_count (world_of 7 true) = Some 7 /\
  exists c', store_count (final (run handler [] (world_of 7 true))) = Some c' /\
             7 <= c' <= 7 + 1.
Proof.
  split; [reflexivity|].
  exact (C8_count_monotone [] (world_of 7 true) 7 eq_refl).
Defined.

(** C10: when the UPDATE of a call is carried out on a count c that the
    column can still increment, and the DEL after it fails, the caller
    gets the server error and the store's count stays at c + 1: nothing
    undoes the increment. *)
Theorem C10_no_rollback (sc : list env) (w : world) (c : Z) :
  let x := run handler sc w in
  store_count w = Some c ->
  c < INT_MAX ->
  In (MysqlIncrementCount, true) (trace x) ->
  In (RedisDel cacheKey, false) (trace x) ->
  returned x = Some ServerError /\
  store_count (final x) = Some (c + 1).
Proof.
  unfold store_count.
  walk; cbn [In]; intros Hc Hlt Hu Hd;
    try (exfalso; clear -Hd; intuition discriminate);
    (split; [reflexivity|]);
    destruct (increment_count_room _ _ Hc Hlt) as (d' & Hd' & Hc' & _);
    congruence.
Qed.

Lemma C10_witness :
  let sc := [calm; calm; calm; calm; Env 0 false] in
  let x := run handler sc (world_of 7 true) in
  store_count (world_of 7 true) = Some 7 /\
  7 < INT_MAX /\
  In (MysqlIncrementCount, true) (trace x) /\
  In (RedisDel cacheKey, false) (trace x) /\
  returned x = Some ServerError /\
  store_count (final x) = Some 8.
Proof.
  cbv zeta.
  assert (In (MysqlIncrementCount, true)
             (trace (run handler [calm; calm; calm; calm; Env 0 false]
                         (world_of 7 true)))) as Hu
    by (vm_compute; auto 6).
  assert (In (RedisDel cacheKey, false)
             (trace (run handler [calm; calm; calm; calm; Env 0 false]
                         (world_of 7 true)))) as Hd
    by (vm_compute; auto 6).
  assert (7 < INT_MAX) as Hlt by reflexivity.
  split; [reflexivity|]. split; [exact Hlt|].
  split; [exact Hu|]. split; [exact Hd|].
  exact (C10_no_rollback _ (world_of 7 true) 7 eq_refl Hlt Hu Hd).
Defined.

(** ** Requests in flight together *)

Lemma owes_handler : owes 1 5 handler.
Proof.
  unfold handler, recordView.
  apply owes_other; [exact I|]. intros r.
  destruct r as [s|]; cbn.
  - destruct (String.eqb s ""); cbn.
    + apply owes_other; [exact I|]. intros rows.
      assert (exists c, JS.or (first_count rows) (JS.VNum 0) = JS.VNum c)
        as [c ->].
      { destruct rows as [|[c|] rows]; cbn; eauto.
        unfold JS.or. cbn. destruct (int_val c =? 0); cbn; eauto. }
      cbn. apply owes_other; [cbn; lia|]. intros _.
      apply owes_update. intros _.
      apply owes_other; [exact I|]. intros _. apply owes_done.
    + apply owes_update. intros _.
      apply owes_other; [exact I|]. intros _. apply owes_done.
  - apply owes_other; [exact I|]. intros rows.
    assert (exists c, JS.or (first_count rows) (JS.VNum 0) = JS.VNum c)
      as [c ->].
    { destruct rows as [|[c|] rows]; cbn; eauto.
      unfold JS.or. cbn. destruct (int_val c =? 0); cbn; eauto. }
    cbn. apply owes_other; [cbn; lia|]. intros _.
    apply owes_update. intros _.
    apply owes_other; [exact I|]. intros _. apply owes_done.
Qed.

Lemma owes_zero u p : owes u 0 p -> u = 0%nat /\ finished p.
Proof. inversion 1; subst. split; [reflexivity|]. now eexists. Qed.

(** One turn of a program that owes [u] increments, in a store with room
    for them. *)
Lemma owes_step u d p e w c :
  owes u d p ->
  ok e = true ->
  store_count w = Some c ->
  c + Z.of_nat u <= INT_MAX ->
  exists u',
    owes u' (pred d) (step e p w).1.1 /\
    store_count (step e p w).1.2 = Some (c + Z.of_nat u - Z.of_nat u').
Proof.
  intros Ho He Hc Hroom.
  destruct Ho as [d n|u d k h Hk|o u d k h Hacc Hk]; cbn [pred].
  - exists 0%nat. split; [constructor|]. cbn. rewrite Hc. f_equal. lia.
  - cbn [step]. unfold perform. rewrite He. cbn [exec tick mysql].
    destruct (increment_count_room (mysql w) c Hc ltac:(lia))
      as (d' & -> & Hd' & _).
    exists u. split; [apply Hk|].
    cbn. unfold store_count. cbn. rewrite Hd'. f_equal. lia.
  - exists u. replace (c + Z.of_nat u - Z.of_nat u) with c by lia.
    cbn [step]. unfold perform. rewrite He.
    destruct o; cbn in Hacc |- *; try contradiction.
    + split; [apply Hk|exact Hc].
    + unfold redis_setEx. destruct (N.eqb_spec seconds 0); [contradiction|].
      cbn. split; [apply Hk|exact Hc].
    + split; [apply Hk|exact Hc].
    + split; [apply Hk|exact Hc].
Qed.

Lemma pool_step_eq t w pool p :
  pool !! who t = Some p ->
  pool_step t (w, pool)
  = ((step (cond t) p w).1.2, <[who t := (step (cond t) p w).1.1]> pool).
Proof.
  intros H. unfold pool_step. cbn [fst snd]. rewrite H.
  now destruct (step (cond t) p w) as [[p' w'] ev].
Qed.

Lemma pool_step_none t w (pool : list (prog response)) :
  pool !! who t = None -> pool_step t (w, pool) = (w, pool).
Proof. intros H. unfold pool_step. cbn [fst snd]. now rewrite H. Qed.

Lemma sum_insert (st : list (nat * nat)) : forall i x y,
  st !! i = Some x ->
  (sum_list_with fst (<[i := y]> st) + x.1 = sum_list_with fst st + y.1)%nat.
Proof.
  induction st as [|a st IH]; intros [|i] x y H; try discriminate.
  - injection H as ->. cbn. lia.
  - specialize (IH i x y H).
    change (<[S i := y]> (a :: st)) with (a :: <[i := y]> st).
    change (sum_list_with fst (a :: <[i := y]> st))
      with (a.1 + sum_list_with fst (<[i := y]> st))%nat.
    change (sum_list_with fst (a :: st))
      with (a.1 + sum_list_with fst st)%nat.
    lia.
Qed.

Lemma sum_lookup_le (st : list (nat * nat)) i x :
  st !! i = Some x -> (x.1 <= sum_list_with fst st)%nat.
Proof.
  intros H. apply (sum_list_with_in x fst st).
  now apply list_elem_of_lookup_2 in H.
Qed.

Lemma turns_of_cons i t ts :
  turns_of i (t :: ts)
  = if Nat.eq_dec (who t) i then S (turns_of i ts) else turns_of i ts.
Proof. reflexivity. Qed.

(** Requests that all get the turns they need, in a store with room for
    the increments they owe, all finish and leave the count higher by
    what they owed. *)
Lemma pool_run_owes ts : forall w pool (st : list (nat * nat)) c,
  Forall2 (fun p ud => owes ud.1 ud.2 p) pool st ->
  turns_ok ts ->
  store_count w = Some c ->
  c + Z.of_nat (sum_list_with fst st) <= INT_MAX ->
  (forall i ud, st !! i = Some ud -> (ud.2 <= turns_of i ts)%nat) ->
  store_count (pool_run ts (w, pool)).1
    = Some (c + Z.of_nat (sum_list_with fst st)) /\
  Forall finished (pool_run ts (w, pool)).2.
Proof.
  induction ts as [|t ts IH]; intros w pool st c HF Hok Hc Hroom Hturns.
  - cbn [pool_run fold_left fst snd].
    assert (sum_list_with fst st = 0%nat /\ Forall finished pool) as [-> HFin].
    { clear Hroom.
      induction HF as [|p ud pool st Hp HF IHF]; [split; constructor|].
      destruct (owes_zero ud.1 p) as [Hu Hfin].
      { pose proof (Hturns 0%nat ud eq_refl) as Hd. cbn in Hd.
        replace ud.2 with 0%nat in Hp by lia. exact Hp. }
      destruct IHF as [Hs Hfs].
      { intros i ud' Hi. exact (Hturns (S i) ud' Hi). }
      split; [cbn; lia|now constructor]. }
    split; [rewrite Hc; f_equal; lia|exact HFin].
  - inversion Hok as [|? ? Ht Hts]; subst.
    change (pool_run (t :: ts) (w, pool))
      with (pool_run ts (pool_step t (w, pool))).
    destruct (pool !! who t) as [p|] eqn:Hp.
    + rewrite (pool_step_eq t w pool p Hp).
      destruct (Forall2_lookup_l _ _ _ _ _ HF Hp) as (ud & Hud & Ho).
      pose proof (sum_lookup_le st _ _ Hud) as Hle.
      destruct (owes_step ud.1 ud.2 p (cond t) w c Ho Ht Hc ltac:(lia))
        as (u' & Ho' & Hc').
      pose proof (sum_insert st (who t) ud (u', pred ud.2) Hud) as Hsum.
      cbn [fst] in Hsum.
      destruct (IH (step (cond t) p w).1.2
                   (<[who t := (step (cond t) p w).1.1]> pool)
                   (<[who t := (u', pred ud.2)]> st)
                   (c + Z.of_nat ud.1 - Z.of_nat u')) as [IH1 IH2].
      * apply Forall2_insert; [exact HF|exact Ho'].
      * exact Hts.
      * exact Hc'.
      * lia.
      * intros i ud' Hi. destruct (Nat.eq_dec (who t) i) as [<-|Hne].
        -- rewrite list_lookup_insert_eq in Hi
             by (eapply lookup_lt_Some; exact Hud).
           injection Hi as <-. cbn [snd].
           pose proof (Hturns _ _ Hud) as Hd. rewrite turns_of_cons in Hd.
           destruct (Nat.eq_dec (who t) (who t)); [lia|congruence].
        -- rewrite list_lookup_insert_ne in Hi by exact Hne.
           pose proof (Hturns _ _ Hi) as Hd. rewrite turns_of_cons in Hd.
           destruct (Nat.eq_dec (who t) i); [congruence|exact Hd].
      * split; [rewrite IH1; f_equal; lia|exact IH2].
    + rewrite (pool_step_none t w pool Hp).
      apply (IH w pool st c HF Hts Hc Hroom).
      intros i ud Hi. pose proof (Hturns _ _ Hi) as Hd.
      rewrite turns_of_cons in Hd.
      destruct (Nat.eq_dec (who t) i) as [<-|]; [|exact Hd].
      apply lookup_lt_Some in Hi. apply lookup_ge_None in Hp.
      rewrite (Forall2_length _ _ _ HF) in Hp. lia.
Qed.

Lemma round_robin_ok n k : turns_ok (round_robin n k).
Proof.
  unfold turns_ok, round_robin. apply Forall_concat, Forall_replicate.
  apply Forall_forall. intros t Ht.
  apply list_elem_of_In, in_map_iff in Ht as (i & <- & _).
  reflexivity.
Qed.

Lemma turns_of_app i ts1 ts2 :
  turns_of i (ts1 ++ ts2) = (turns_of i ts1 + turns_of i ts2)%nat.
Proof. unfold turns_of. now rewrite map_app, count_occ_app. Qed.

Lemma turns_of_round n i :
  (i < n)%nat ->
  (1 <= turns_of i (map (fun i => Turn i calm) (seq 0 n)))%nat.
Proof.
  intros Hi. unfold turns_of. rewrite map_map, map_id.
  apply count_occ_In, in_seq. lia.
Qed.

Lemma round_robin_turns n k i :
  (i < n)%nat -> (k <= turns_of i (round_robin n k))%nat.
Proof.
  intros Hi. unfold round_robin.
  induction k as [|k IH]; [cbn; lia|].
  cbn [replicate List.concat]. rewrite turns_of_app.
  pose proof (turns_of_round n i Hi). lia.
Qed.

(** C9 (amended): for every N up to 2147483647, N requests in flight
    together, on a store whose count starts at 0, interleaved in any order
    in which none of their commands fails and each request gets the five
    turns it may need, all finish and leave the count at exactly N: no
    increment is lost.  The totals they show may repeat: two requests that
    alternate both show 1. *)
Theorem C9_no_lost_updates :
  (forall (N : nat) (ts : list turn) (w : world),
     store_count w = Some 0 ->
     Z.of_nat N <= INT_MAX ->
     turns_ok ts ->
     (forall i, (i < N)%nat -> (5 <= turns_of i ts)%nat) ->
     store_count (pool_run ts (w, replicate N handler)).1 = Some (Z.of_nat N) /\
     Forall finished (pool_run ts (w, replicate N handler)).2) /\
  (turns_ok alternate /\
   (pool_run alternate (world_of 0 true, replicate 2 handler)).2
   = [Ret (Render (JS.Int 1)); Ret (Render (JS.Int 1))]).
Proof.
  split.
  - intros N ts w Hc HN Hok Hturns.
    assert (sum_list_with fst (replicate N (1%nat, 5%nat)) = N) as Hsum.
    { induction N as [|N IH]; [reflexivity|].
      cbn [replicate sum_list_with fst]. rewrite IH; [reflexivity|lia|].
      intros i Hi. apply Hturns. lia. }
    destruct (pool_run_owes ts w (replicate N handler)
                (replicate N (1%nat, 5%nat)) 0) as [H1 H2].
    + apply Forall2_replicate. exact owes_handler.
    + exact Hok.
    + exact Hc.
    + rewrite Hsum. lia.
    + intros i ud Hi. apply lookup_replicate in Hi as [-> Hi].
      apply Hturns, Hi.
    + rewrite Hsum in H1. split; [exact H1|exact H2].
  - split; [apply round_robin_ok|reflexivity].
Qed.

Lemma C9_witness :
  store_count (world_of 0 true) = Some 0 /\
  Z.of_nat 2 <= INT_MAX /\
  turns_ok alternate /\
  (forall i, (i < 2)%nat -> (5 <= turns_of i alternate)%nat) /\
  store_count (pool_run alternate (world_of 0 true, replicate 2 handler)).1
    = Some (Z.of_nat 2) /\
  Forall finished (pool_run alternate (world_of 0 true, replicate 2 handler)).2.
Proof.
  assert (Z.of_nat 2 <= INT_MAX) as HN by (unfold INT_MAX; lia).
  assert (forall i, (i < 2)%nat -> (5 <= turns_of i alternate)%nat) as Hturns
    by (intros i Hi; now apply round_robin_turns).
  split; [reflexivity|]. split; [exact HN|].
  split; [apply round_robin_ok|]. split; [exact Hturns|].
  exact (proj1 C9_no_lost_updates 2%nat alternate (world_of 0 true)
               eq_refl HN (round_robin_ok 2 5) Hturns).
Defined.

Lemma pool_count_bounded (N : nat) (ts : list turn) (w : world) :
  INT_MAX < Z.of_nat N ->
  store_count (pool_run ts (w, replicate N handler)).1 <> Some (Z.of_nat N).
Proof.
  intros HN H. unfold store_count in H. apply db_count_range in H. lia.
Qed.

(** C9 as stated fails: 2147483648 requests that take their turns in five
    rounds, none of their commands failing, cannot leave the count at
    2147483648, which the INT column does not hold. *)
Lemma C9_fails :
  store_count (world_of 0 true) = Some 0 /\
  turns_ok (round_robin (Z.to_nat 2147483648) 5) /\
  (forall i, (i < Z.to_nat 2147483648)%nat ->
             (5 <= turns_of i (round_robin (Z.to_nat 2147483648) 5))%nat) /\
  store_count
    (pool_run (round_robin (Z.to_nat 2147483648) 5)
              (world_of 0 true, replicate (Z.to_nat 2147483648) handler)).1
  <> Some (Z.of_nat (Z.to_nat 2147483648)).
Proof.
  split; [reflexivity|]. split; [apply round_robin_ok|].
  split; [intros i Hi; now apply round_robin_turns|].
  apply pool_count_bounded. rewrite Z2Nat.id; unfold INT_MAX; lia.
Qed.

(** ** Further facts about runs *)

(** The handler always answers: no exception leaves it. *)
Lemma handler_responds (sc : list env) (w : world) :
  exists r, returned (run handler sc w) = Some r.
Proof. walk; eauto. Qed.

(** A run is its first step followed by the run of what is left. *)
Lemma run_step {A : Type} o (k : reply o -> prog A) h sc w :
  let s := step (hd calm sc) (Call o k h) w in
  let x := run s.1.1 (tl sc) s.1.2 in
  run (Call o k h) sc w = Result (returned x) (final x) (s.2 ++ trace x).
Proof.
  cbn [run step]. now destruct (perform (hd calm sc) o w) as [[r|] w'].
Qed.

(** No command lowers the count, whoever sends it. *)
Lemma perform_count_mono e o w c :
  store_count w = Some c ->
  exists c', store_count (perform e o w).2 = Some c' /\ c <= c' <= c + 1.
Proof.
  intros Hc. unfold perform.
  destruct (ok e); [|exists c; split; [exact Hc|lia]].
  destruct o; cbn [exec tick mysql redis now snd].
  - exists c; split; [exact Hc|lia].
  - destruct (redis_setEx _ _ _ _ _); exists c; (split; [exact Hc|lia]).
  - exists c; split; [exact Hc|lia].
  - exists c; split; [exact Hc|lia].
  - destruct (increment_count (mysql w)) as [d|] eqn:Hd.
    + exact (increment_count_mono _ _ _ Hd Hc).
    + exists c; split; [exact Hc|lia].
Qed.

Lemma pool_step_count_mono t w pool c :
  store_count w = Some c ->
  exists c', store_count (pool_step t (w, pool)).1 = Some c' /\
             c <= c' <= c + 1.
Proof.
  intros Hc. destruct (pool !! who t) as [p|] eqn:Hp.
  - rewrite (pool_step_eq t w pool p Hp). cbn [fst].
    destruct p as [a| |o k h]; try (exists c; split; [exact Hc|lia]).
    cbn [step]. pose proof (perform_count_mono (cond t) o w c Hc) as H.
    destruct (perform (cond t) o w) as [[r|] w']; exact H.
  - rewrite (pool_step_none t w pool Hp). exists c; split; [exact Hc|lia].
Qed.

(** Under any interleaving, with or without failures, the count never
    goes down. *)
Lemma pool_run_count_mono ts : forall w pool c,
  store_count w = Some c ->
  exists c', store_count (pool_run ts (w, pool)).1 = Some c' /\ c <= c'.
Proof.
  induction ts as [|t ts IH]; intros w pool c Hc.
  - exists c. split; [exact Hc|lia].
  - change (pool_run (t :: ts) (w, pool))
      with (pool_run ts (pool_step t (w, pool))).
    destruct (pool_step_count_mono t w pool c Hc) as (c1 & H1 & Hle).
    destruct (pool_step t (w, pool)) as [w1 pool1].
    destruct (IH w1 pool1 c1 H1) as (c2 & H2 & Hle2).
    exists c2. split; [exact H2|lia].
Qed.

(** The seed of [initializeDatabase] gives a store that counts from 0. *)
Lemma seed_count_zero mode : db_count (seed_count (Database ∅ mode)) = Some 0.
Proof. reflexivity. Qed.

(** * Further properties of the code *)

(** ** The handler of [GET /]: answers and traces *)

(** The handler answers with the page exactly when every command it sent
    was carried out, and with the server error exactly when one failed; no
    exception leaves it. *)
Theorem home_page_iff_all_carried_out (sc : list env) (w : world) :
  let x := run handler sc w in
  ((exists n, returned x = Some (Render n)) <->
   all_carried_out (trace x) = true) /\
  (returned x = Some ServerError <-> all_carried_out (trace x) = false).
Proof.
  walk; cbn; (split; split); intros H;
    try discriminate; try reflexivity; eauto;
    destruct H as [n H]; discriminate.
Qed.


(** ** The handler of [GET /]: what it leaves alone *)



(** ** The handler of [GET /]: a table without its row *)




(** ** The handler of [GET /]: the cache entry between requests *)






(** ** The handler of [GET /]: odd cache contents *)





(** The text [toString] gives for a safe integer is not empty, so it
    counts as an entry, and [parseInt] reads the same integer back from
    it. *)
Theorem toString_parseInt_round_trip (z : Z) :
  JS.is_safe z ->
  exists s,
    JS.toString (JS.VNum z) = Some s /\
    JS.truthy (JS.VStr s) = true /\
    JS.parseInt (JS.VStr s) = JS.Int z.
Proof.
  intros Hz. exists (pretty z). split; [reflexivity|]. split.
  - cbn. now rewrite pretty_Z_nonempty.
  - unfold JS.parseInt. cbn [JS.ToString].
    rewrite parseInt_pretty. now apply of_Z_safe.
Qed.

Lemma toString_parseInt_witness :
  JS.is_safe (-2147483648) /\
  exists s,
    JS.toString (JS.VNum (-2147483648)) = Some s /\
    JS.truthy (JS.VStr s) = true /\
    JS.parseInt (JS.VStr s) = JS.Int (-2147483648).
Proof.
  assert (JS.is_safe (-2147483648)) as H
    by (unfold JS.is_safe, JS.MAX_SAFE_INTEGER; lia).
  split; [exact H|]. exact (toString_parseInt_round_trip _ H).
Defined.

(** ** The session counter *)

Lemma count_view_Int (z : Z) : count_view (Some (JS.Int z)) = JS.of_Z (z + 1).
Proof.
  unfold count_view, falsy_number.
  destruct (Z.eqb_spec z 0) as [->|]; reflexivity.
Qed.

(** In a session that starts without the field, the k-th request leaves
    [views] at k (for k up to the largest safe integer). *)
Theorem session_counts_requests (k : nat) :
  (1 <= k)%nat ->
  Z.of_nat k <= JS.MAX_SAFE_INTEGER ->
  views_after k None = Some (JS.Int (Z.of_nat k)).
Proof.
  intros H1 Hk. destruct k as [|k]; [lia|clear H1].
  cbn [views_after]. change (count_view None) with (JS.Int 1).
  assert (forall j v,
            0 < v -> v + Z.of_nat j <= JS.MAX_SAFE_INTEGER ->
            views_after j (Some (JS.Int v)) = Some (JS.Int (v + Z.of_nat j)))
    as Hgen.
  { induction j as [|j IH]; intros v Hv Hle.
    - cbn. do 2 f_equal. lia.
    - cbn [views_after]. rewrite count_view_Int.
      rewrite of_Z_safe by (unfold JS.is_safe, JS.MAX_SAFE_INTEGER in *; lia).
      rewrite IH by lia. do 2 f_equal. lia. }
  rewrite Hgen by lia. do 2 f_equal. lia.
Qed.

Lemma session_counts_witness :
  (1 <= 3)%nat /\ Z.of_nat 3 <= JS.MAX_SAFE_INTEGER /\
  views_after 3 None = Some (JS.Int (Z.of_nat 3)).
Proof.
  assert (1 <= 3)%nat as H1 by lia.
  assert (Z.of_nat 3 <= JS.MAX_SAFE_INTEGER) as H2
    by (unfold JS.MAX_SAFE_INTEGER; lia).
  split; [exact H1|]. split; [exact H2|].
  exact (session_counts_requests 3 H1 H2).
Defined.

(** ** Requests in flight together: no view counted twice *)

Lemma sends_le_handler : sends_le 1 handler.
Proof.
  unfold handler, recordView.
  apply sends_le_other; [discriminate| |constructor]. intros r.
  destruct r as [s|]; cbn.
  - destruct (String.eqb s ""); cbn.
    + apply sends_le_other; [discriminate| |constructor]. intros rows.
      destruct (JS.toString (JS.or (first_count rows) (JS.VNum 0))); cbn;
        [|constructor].
      apply sends_le_other; [discriminate| |constructor]. intros _.
      apply sends_le_update; [|constructor]. intros _.
      apply sends_le_other; [discriminate| |constructor]. intros _.
      constructor.
    + apply sends_le_update; [|constructor]. intros _.
      apply sends_le_other; [discriminate| |constructor]. intros _.
      constructor.
  - apply sends_le_other; [discriminate| |constructor]. intros rows.
    destruct (JS.toString (JS.or (first_count rows) (JS.VNum 0))); cbn;
      [|constructor].
    apply sends_le_other; [discriminate| |constructor]. intros _.
    apply sends_le_update; [|constructor]. intros _.
    apply sends_le_other; [discriminate| |constructor]. intros _.
    constructor.
Qed.

Lemma perform_other_count e o w :
  o <> MysqlIncrementCount ->
  store_count (perform e o w).2 = store_count w.
Proof.
  intros Ho. unfold perform. destruct (ok e); [|reflexivity].
  destruct o; cbn [exec tick snd]; try reflexivity; try congruence.
  now destruct (redis_setEx _ _ _ _ _).
Qed.

Lemma sends_le_step u p e w c :
  sends_le u p ->
  store_count w = Some c ->
  exists u' c',
    sends_le u' (step e p w).1.1 /\
    store_count (step e p w).1.2 = Some c' /\
    c' + Z.of_nat u' <= c + Z.of_nat u.
Proof.
  intros Hp Hc.
  destruct Hp as [u r|u|u k h Hk Hh|o u k h Ho Hk Hh].
  - exists u, c. cbn. split; [constructor|split; [exact Hc|lia]].
  - exists u, c. cbn. split; [constructor|split; [exact Hc|lia]].
  - destruct (perform_count_mono e MysqlIncrementCount w c Hc)
      as (c' & Hc' & Hle).
    exists u, c'. cbn [step].
    destruct (perform e MysqlIncrementCount w) as [[r|] w']; cbn in *;
      (split; [auto|split; [exact Hc'|lia]]).
  - exists u, c. cbn [step].
    pose proof (perform_other_count e o w Ho) as Hsame.
    destruct (perform e o w) as [[r|] w']; cbn in *;
      (split; [auto|split; [congruence|lia]]).
Qed.

Lemma sum_list_insert (us : list nat) : forall i u u',
  us !! i = Some u ->
  (sum_list (<[i := u']> us) + u = sum_list us + u')%nat.
Proof.
  induction us as [|a us IH]; intros [|i] u u' H; try discriminate.
  - injection H as ->. cbn. lia.
  - specialize (IH i u u' H).
    change (<[S i := u']> (a :: us)) with (a :: <[i := u']> us).
    change (sum_list (a :: <[i := u']> us))
      with (a + sum_list (<[i := u']> us))%nat.
    change (sum_list (a :: us)) with (a + sum_list us)%nat.
    lia.
Qed.

Lemma pool_run_sends_le ts : forall w pool (us : list nat) c T,
  Forall2 (fun p u => sends_le u p) pool us ->
  store_count w = Some c ->
  c + Z.of_nat (sum_list us) <= T ->
  exists c', store_count (pool_run ts (w, pool)).1 = Some c' /\ c' <= T.
Proof.
  induction ts as [|t ts IH]; intros w pool us c T HF Hc HT.
  - exists c. split; [exact Hc|lia].
  - change (pool_run (t :: ts) (w, pool))
      with (pool_run ts (pool_step t (w, pool))).
    destruct (pool !! who t) as [p|] eqn:Hp.
    + rewrite (pool_step_eq t w pool p Hp).
      destruct (Forall2_lookup_l _ _ _ _ _ HF Hp) as (u & Hu & Hle).
      destruct (sends_le_step u p (cond t) w c Hle Hc)
        as (u' & c' & Hle' & Hc' & Hsum).
      pose proof (sum_list_insert us (who t) u u' Hu) as Hins.
      apply (IH _ _ (<[who t := u']> us) c' T).
      * apply Forall2_insert; [exact HF|exact Hle'].
      * exact Hc'.
      * lia.
    + rewrite (pool_step_none t w pool Hp). now apply (IH w pool us c T).
Qed.

(** However N requests in flight together interleave, and whichever of
    their commands fail, they raise the store's count by N at most, and
    never lower it: no view is counted twice. *)
Theorem pool_counts_no_view_twice (N : nat) (ts : list turn)
    (w : world) (c : Z) :
  store_count w = Some c ->
  exists c',
    store_count (pool_run ts (w, replicate N handler)).1 = Some c' /\
    c <= c' <= c + Z.of_nat N.
Proof.
  intros Hc.
  destruct (pool_run_count_mono ts w (replicate N handler) c Hc)
    as (c1 & H1 & Hlo).
  destruct (pool_run_sends_le ts w (replicate N handler) (replicate N 1%nat)
              c (c + Z.of_nat N)) as (c2 & H2 & Hhi).
  - apply Forall2_replicate. exact sends_le_handler.
  - exact Hc.
  - rewrite sum_list_replicate. lia.
  - exists c1. split; [exact H1|]. rewrite H1 in H2. injection H2 as ->. lia.
Qed.

Lemma pool_counts_no_view_twice_witness :
  let ts := [Turn 0 calm; Turn 1 calm; Turn 0 calm; Turn 1 (Env 0 false);
             Turn 0 calm; Turn 0 calm; Turn 0 calm] in
  store_count (world_of 7 true) = Some 7 /\
  exists c',
    store_count (pool_run ts (world_of 7 true, replicate 2 handler)).1
      = Some c' /\
    7 <= c' <= 7 + Z.of_nat 2.
Proof.
  cbv zeta.
  assert (store_count (world_of 7 true) = Some 7) as Hc by reflexivity.
  split; [exact Hc|].
  exact (pool_counts_no_view_twice 2 _ _ 7 Hc).
Defined.

(** ** The handler of [GET /api/cache-test] *)

Section CacheTestFacts.

Context {json : Type}.
Variable JSON_stringify : json -> string.
Variable JSON_parse : string -> option json.

Local Abbreviation cache_test :=
  (CacheTest.handler JSON_stringify JSON_parse).

(** A run of the handler, spelled out. *)
Lemma run_cache_test (data : json) (sc : list env) (w : world) :
  run (cache_test data) sc w =
  let w1 := tick (delay (hd calm sc)) w in
  if ok (hd calm sc) then
    after (RedisGet CacheTest.cacheKey, true)
      (match cached w1 CacheTest.cacheKey with
       | Some (String a s) =>
           match JSON_parse (String a s) with
           | Some parsed => Result (Some (CacheTest.Json "cache" parsed)) w1 []
           | None => Result (Some CacheTest.Error500) w1 []
           end
       | _ =>
           let w2 := tick (delay (hd calm (tl sc))) w1 in
           let E := RedisSetEx CacheTest.cacheKey 30 (JSON_stringify data) in
           if ok (hd calm (tl sc)) then
             Result (Some (CacheTest.Json "database" data))
                    (World (now w2)
                           (<[CacheTest.cacheKey :=
                                Entry (JSON_stringify data) (now w2 + 30000)]>
                              (redis w2))
                           (mysql w2))
                    [(E, true)]
           else Result (Some CacheTest.Error500) w2 [(E, false)]
       end)
  else Result (Some CacheTest.Error500) w1 [(RedisGet CacheTest.cacheKey, false)].
Proof.
  unfold CacheTest.handler. cbn [run try_catch fmap mbind prog_fmap prog_bind bind call].
  unfold perform. destruct (ok (hd calm sc)); [|reflexivity].
  cbn [exec]. fold (cached (tick (delay (hd calm sc)) w) CacheTest.cacheKey).
  destruct (cached (tick (delay (hd calm sc)) w) CacheTest.cacheKey)
    as [[|a s]|]; cbn.
  - unfold perform. now destruct (ok (hd calm (tl sc))).
  - now destruct (JSON_parse (String a s)).
  - unfold perform. now destruct (ok (hd calm (tl sc))).
Qed.


(** With no live entry, a request answers from the "database" and caches
    what it answered for 30 s; a request whose GET comes less than 30 s
    after that SETEX answers from the "cache" with the same data, not its
    own, sends nothing but the GET and leaves the cache as it is. *)
Theorem cache_test_serves_what_it_cached (d1 d2 : json)
    (sc1 sc2 : list env) (w : world) :
  cached w CacheTest.cacheKey = None ->
  all_ok sc1 ->
  all_ok sc2 ->
  JSON_stringify d1 <> "" ->
  JSON_parse (JSON_stringify d1) = Some d1 ->
  (delay (hd calm sc2) < 30000)%N ->
  let x1 := run (cache_test d1) sc1 w in
  let x2 := run (cache_test d2) sc2 (final x1) in
  returned x1 = Some (CacheTest.Json "database" d1) /\
  trace x1 = [(RedisGet CacheTest.cacheKey, true);
              (RedisSetEx CacheTest.cacheKey 30 (JSON_stringify d1), true)] /\
  returned x2 = Some (CacheTest.Json "cache" d1) /\
  trace x2 = [(RedisGet CacheTest.cacheKey, true)] /\
  redis (final x2) = redis (final x1).
Proof.
  intros Hc Hok1 Hok2 Hne Hparse Hd. cbv zeta.
  pose proof (all_ok_hd _ (all_ok_tl _ Hok1)) as Hok1'.
  rewrite (run_cache_test d1 sc1 w). cbv zeta.
  rewrite (all_ok_hd _ Hok1), (cached_later _ _ _ Hc), Hok1'.
  cbn [after returned final trace].
  rewrite run_cache_test. cbv zeta. rewrite (all_ok_hd _ Hok2).
  match goal with
  | |- context [cached ?w' CacheTest.cacheKey] =>
      assert (cached w' CacheTest.cacheKey = Some (JSON_stringify d1)) as ->
  end.
  { unfold cached, redis_get, tick. cbn [now redis].
    rewrite lookup_insert_eq. cbn [value expires].
    match goal with
    | |- (if (?a <? ?b)%N then _ else _) = _ =>
        destruct (N.ltb_spec a b); [reflexivity|lia]
    end. }
  destruct (JSON_stringify d1) as [|a s] eqn:Hs; [congruence|].
  rewrite Hparse. cbn. repeat split.
Qed.

(** Thirty seconds after the SETEX the entry counts no more: the request
    answers from the "database" with its own data and caches that. *)
Theorem cache_test_entry_expires (d1 d2 : json)
    (sc1 sc2 : list env) (w : world) :
  cached w CacheTest.cacheKey = None ->
  all_ok sc1 ->
  all_ok sc2 ->
  (30000 <= delay (hd calm sc2))%N ->
  let x1 := run (cache_test d1) sc1 w in
  let x2 := run (cache_test d2) sc2 (final x1) in
  returned x2 = Some (CacheTest.Json "database" d2) /\
  trace x2 = [(RedisGet CacheTest.cacheKey, true);
              (RedisSetEx CacheTest.cacheKey 30 (JSON_stringify d2), true)] /\
  exists t, redis (final x2) !! CacheTest.cacheKey
            = Some (Entry (JSON_stringify d2) t).
Proof.
  intros Hc Hok1 Hok2 Hd. cbv zeta.
  pose proof (all_ok_hd _ (all_ok_tl _ Hok1)) as Hok1'.
  pose proof (all_ok_hd _ (all_ok_tl _ Hok2)) as Hok2'.
  rewrite (run_cache_test d1 sc1 w). cbv zeta.
  rewrite (all_ok_hd _ Hok1), (cached_later _ _ _ Hc), Hok1'.
  cbn [after returned final trace].
  rewrite run_cache_test. cbv zeta. rewrite (all_ok_hd _ Hok2), Hok2'.
  match goal with
  | |- context [cached ?w' CacheTest.cacheKey] =>
      assert (cached w' CacheTest.cacheKey = None) as ->
  end.
  { unfold cached, redis_get, tick. cbn [now redis].
    rewrite lookup_insert_eq. cbn [value expires].
    match goal with
    | |- (if (?a <? ?b)%N then _ else _) = _ =>
        destruct (N.ltb_spec a b); [lia|reflexivity]
    end. }
  cbn [after returned final trace redis].
  repeat split. eexists. apply lookup_insert_eq.
Qed.

(** A live entry that [JSON.parse] rejects makes the request end in the
    error after its GET, and stays as it is: the handler neither deletes
    nor replaces it, so the requests fail until it expires. *)
Theorem cache_test_keeps_corrupt_entry (s : string) (data : json)
    (sc : list env) (w : world) :
  cached (tick (delay (hd calm sc)) w) CacheTest.cacheKey = Some s ->
  s <> "" ->
  JSON_parse s = None ->
  ok (hd calm sc) = true ->
  let x := run (cache_test data) sc w in
  returned x = Some CacheTest.Error500 /\
  trace x = [(RedisGet CacheTest.cacheKey, true)] /\
  redis (final x) = redis w.
Proof.
  intros Hc Hne Hparse Hok. cbv zeta.
  rewrite run_cache_test. cbv zeta. rewrite Hok, Hc.
  destruct s as [|a s]; [congruence|]. rewrite Hparse.
  repeat split.
Qed.

End CacheTestFacts.

Lemma cache_test_serves_witness :
  let w := world_of 7 true in
  let sc2 := [Env 29999 true] in
  cached w CacheTest.cacheKey = None /\
  all_ok [] /\
  all_ok sc2 /\
  int_stringify 5 <> "" /\
  int_parse (int_stringify 5) = Some 5 /\
  (delay (hd calm sc2) < 30000)%N /\
  returned (run (CacheTest.handler int_stringify int_parse 6) sc2
              (final (run (CacheTest.handler int_stringify int_parse 5) [] w)))
  = Some (CacheTest.Json "cache" 5).
Proof.
  cbv zeta.
  assert (cached (world_of 7 true) CacheTest.cacheKey = None) as Hc
    by reflexivity.
  assert (all_ok []) as Hok1 by constructor.
  assert (all_ok [Env 29999 true]) as Hok2 by (repeat constructor).
  assert (int_stringify 5 <> "") as Hne by discriminate.
  assert (int_parse (int_stringify 5) = Some 5) as Hp by reflexivity.
  assert (delay (hd calm [Env 29999 true]) < 30000)%N as Hd by reflexivity.
  repeat (split; [assumption|]).
  destruct (cache_test_serves_what_it_cached int_stringify int_parse 5 6
              [] [Env 29999 true] (world_of 7 true) Hc Hok1 Hok2 Hne Hp Hd)
    as (_ & _ & H & _).
  exact H.
Defined.

Lemma cache_test_expires_witness :
  let w := world_of 7 true in
  let sc2 := [Env 30000 true] in
  cached w CacheTest.cacheKey = None /\
  all_ok [] /\
  all_ok sc2 /\
  (30000 <= delay (hd calm sc2))%N /\
  returned (run (CacheTest.handler int_stringify int_parse 6) sc2
              (final (run (CacheTest.handler int_stringify int_parse 5) [] w)))
  = Some (CacheTest.Json "database" 6).
Proof.
  cbv zeta.
  assert (cached (world_of 7 true) CacheTest.cacheKey = None) as Hc
    by reflexivity.
  assert (all_ok []) as Hok1 by constructor.
  assert (all_ok [Env 30000 true]) as Hok2 by (repeat constructor).
  assert (30000 <= delay (hd calm [Env 30000 true]))%N as Hd by (cbn; lia).
  repeat (split; [assumption|]).
  exact (proj1 (cache_test_entry_expires int_stringify int_parse 5 6
                  [] [Env 30000 true] (world_of 7 true) Hc Hok1 Hok2 Hd)).
Defined.

Lemma cache_test_corrupt_witness :
  let w := World 0 {[ CacheTest.cacheKey := Entry "oops" 100 ]}
                 (Database ∅ true) in
  cached (tick (delay (hd calm [])) w) CacheTest.cacheKey = Some "oops" /\
  "oops" <> "" /\
  int_parse "oops" = None /\
  ok (hd calm []) = true /\
  returned (run (CacheTest.handler int_stringify int_parse 6) [] w)
  = Some CacheTest.Error500.
Proof.
  cbv zeta.
  assert (cached (tick (delay (hd calm []))
                       (World 0 {[ CacheTest.cacheKey := Entry "oops" 100 ]}
                              (Database ∅ true)))
                 CacheTest.cacheKey = Some "oops") as Hc by reflexivity.
  assert ("oops" <> "") as Hne by discriminate.
  assert (int_parse "oops" = None) as Hp by reflexivity.
  assert (ok (hd calm []) = true) as Hok by reflexivity.
  repeat (split; [assumption|]).
  exact (proj1 (cache_test_keeps_corrupt_entry int_stringify int_parse
                  "oops" 6 [] _ Hc Hne Hp Hok)).
Defined.

(** ** The health check *)

(** The first [n] entries of a script, case by case. *)
Ltac script_cases sc n :=
  match n with
  | O => idtac
  | S ?n' =>
      let b := fresh "b" in
      destruct sc as [|b sc]; [|destruct b; script_cases sc n']
  end.

(** The health check always answers, after both probes, the second also
    when the first failed; each service is reported by its own probe and
    none is left "checking"; and the server is as before. *)
Theorem health_probes_both (sc : list bool) (s : Boot.server) :
  let r := Boot.health sc s in
  let b1 := hd true sc in
  let b2 := hd true (tl sc) in
  let word (b : bool) := if b then "healthy" else "unhealthy" in
  Boot.sent r = [(Boot.Select1, b1); (Boot.Ping, b2)] /\
  Boot.state r = s /\
  exists code h,
    Boot.value r = Some (code, h) /\
    Boot.services h = Boot.Statuses (word b1) (word b2).
Proof.
  script_cases sc 2%nat; cbn; repeat split; eauto.
Qed.

(** The status is 200 exactly when both probes succeeded, and 503
    otherwise; the message is "OK" exactly with 200. *)
Theorem health_code (sc : list bool) (s : Boot.server)
    (code : Z) (h : Boot.healthcheck) :
  let r := Boot.health sc s in
  Boot.value r = Some (code, h) ->
  (code = 200 \/ code = 503) /\
  (code = 200 <->
   Boot.sent r = [(Boot.Select1, true); (Boot.Ping, true)]) /\
  (code = 200 <-> Boot.message h = "OK") /\
  (code = 503 <-> Boot.message h = "Service unavailable").
Proof.
  script_cases sc 2%nat; cbn; intros [= <- <-]; cbn;
    repeat split; auto; intros H; try discriminate H; try lia.
Qed.

Lemma health_code_witness :
  let r := Boot.health [false; true] (Boot.blank true) in
  let h := Boot.Healthcheck "Service unavailable"
             (Boot.Statuses "unhealthy" "healthy") in
  Boot.value r = Some (503, h) /\
  (503 = 200 <->
   Boot.sent r = [(Boot.Select1, true); (Boot.Ping, true)]) /\
  (503 = 503 <-> Boot.message h = "Service unavailable").
Proof.
  cbv zeta.
  assert (Boot.value (Boot.health [false; true] (Boot.blank true))
          = Some (503, Boot.Healthcheck "Service unavailable"
                         (Boot.Statuses "unhealthy" "healthy"))) as H
    by reflexivity.
  destruct (health_code [false; true] (Boot.blank true) _ _ H)
    as (_ & H1 & _ & H2).
  split; [exact H|]. split; [exact H1|exact H2].
Defined.

(** ** Start-up *)

(** Follow a run of the start-up code statement by statement, splitting
    on what the script decides for each. *)
Ltac boot_simpl :=
  cbn [hd tl app Boot.value Boot.state Boot.sent Boot.rest Boot.effect
       Boot.users Boot.visits Boot.mode default from_option] in *.

Ltac boot :=
  cbv zeta;
  unfold Boot.startServer, Boot.initializeDatabase, Boot.try_catch,
    mbind, mret, Boot.act_bind, Boot.act_ret, Boot.bind, Boot.ret,
    Boot.send in *;
  repeat (boot_simpl;
          match goal with
          | |- context [hd true ?l] => is_var l; destruct l as [|[] l]
          end);
  boot_simpl.

(** [initializeDatabase] never throws, so no failure of the database
    keeps [startServer] from calling [app.listen]: the server ends with
    [process.exit(1)] exactly when [app.listen] itself throws. *)
Theorem start_listens_despite_database (sc : list bool) (s : Boot.server) :
  let r := Boot.startServer sc s in
  Boot.value (Boot.initializeDatabase sc s) = Some tt /\
  (exists b, last (Boot.sent r) = Some (Boot.Listen, b)) /\
  (Boot.value r = Some Boot.Exit1 <-> In (Boot.Listen, false) (Boot.sent r)) /\
  (Boot.value r = Some Boot.Listening <->
   In (Boot.Listen, true) (Boot.sent r)).
Proof.
  destruct s as [u [rows|] m]; boot;
    (split; [reflexivity|split; [eauto|split; split; intros H]]);
    try reflexivity; try discriminate H;
    try (exfalso; clear -H; cbn [In] in H; intuition discriminate);
    cbn [In]; auto 10.
Qed.

(** When a statement before it fails, [connection.release()] is not
    called: the connection taken from the pool is not given back. *)
Theorem init_failure_skips_release (sc : list bool) (s : Boot.server)
    (c : Boot.stmt) :
  let r := Boot.initializeDatabase sc s in
  In (c, false) (Boot.sent r) ->
  c <> Boot.Release ->
  In (Boot.GetConnection, true) (Boot.sent r) ->
  forall b, ~ In (Boot.Release, b) (Boot.sent r).
Proof.
  destruct s as [u [rows|] m]; boot; cbn [In];
    intros Hc Hne Hg b Hr;
    clear Hg; intuition (try discriminate; try congruence).
Qed.

Lemma init_failure_skips_release_witness :
  let r := Boot.initializeDatabase [true; true; false] (Boot.blank true) in
  In (Boot.CreateVisitorCount, false) (Boot.sent r) /\
  Boot.CreateVisitorCount <> Boot.Release /\
  In (Boot.GetConnection, true) (Boot.sent r) /\
  forall b, ~ In (Boot.Release, b) (Boot.sent r).
Proof.
  cbv zeta.
  assert (In (Boot.CreateVisitorCount, false)
             (Boot.sent (Boot.initializeDatabase [true; true; false]
                           (Boot.blank true)))) as Hc
    by (vm_compute; auto).
  assert (Boot.CreateVisitorCount <> Boot.Release) as Hne by discriminate.
  assert (In (Boot.GetConnection, true)
             (Boot.sent (Boot.initializeDatabase [true; true; false]
                           (Boot.blank true)))) as Hg
    by (vm_compute; auto).
  repeat (split; [assumption|]).
  exact (init_failure_skips_release _ _ _ Hc Hne Hg).
Defined.

Lemma seed_count_present rows m x :
  rows !! 1 = Some x ->
  visitor_count (seed_count (Database rows m)) = rows.
Proof. unfold seed_count. cbn. now intros ->. Qed.

Lemma init_present_noop (sc : list bool) (s : Boot.server)
    (rows : gmap Z (option sql_int)) (x : option sql_int) :
  Boot.users s = true ->
  Boot.visits s = Some rows ->
  rows !! 1 = Some x ->
  Boot.state (Boot.initializeDatabase sc s) = s.
Proof.
  destruct s as [u v m]. cbn. intros -> -> Hx.
  boot; rewrite ?(seed_count_present _ _ _ Hx); reflexivity.
Qed.

(** On a server that has both tables and the counter's row,
    [initializeDatabase] changes nothing, whatever fails: a restart keeps
    the count. *)
Theorem init_keeps_existing_count (sc : list bool) (s : Boot.server)
    (rows : gmap Z (option sql_int)) (x : option sql_int) :
  Boot.users s = true ->
  Boot.visits s = Some rows ->
  rows !! 1 = Some x ->
  Boot.state (Boot.initializeDatabase sc s) = s.
Proof. apply init_present_noop. Qed.

Lemma init_keeps_existing_count_witness :
  let s := Boot.Server true (Some {[ 1 := to_INT 41; 2 := None ]}) false in
  Boot.users s = true /\
  Boot.visits s = Some {[ 1 := to_INT 41; 2 := None ]} /\
  ({[ 1 := to_INT 41; 2 := None ]} : gmap Z (option sql_int)) !! 1
  = Some (to_INT 41) /\
  Boot.state (Boot.initializeDatabase [true; true; true; false] s) = s.
Proof.
  cbv zeta.
  assert (({[ 1 := to_INT 41; 2 := None ]} : gmap Z (option sql_int)) !! 1
          = Some (to_INT 41)) as Hx by reflexivity.
  split; [reflexivity|]. split; [reflexivity|]. split; [exact Hx|].
  exact (init_keeps_existing_count [true; true; true; false]
           (Boot.Server true (Some {[ 1 := to_INT 41; 2 := None ]}) false)
           _ _ eq_refl eq_refl Hx).
Defined.

(** The scripts in which the five statements of [initializeDatabase] all
    reach the server. *)
Lemma init_success_state (sc : list bool) (s : Boot.server) :
  Forall (fun b => b = true) (firstn 5 sc) ->
  Boot.sent (Boot.initializeDatabase sc s)
  = [(Boot.GetConnection, true); (Boot.CreateUsers, true);
     (Boot.CreateVisitorCount, true); (Boot.InsertVisitorCount, true);
     (Boot.Release, true)] /\
  Boot.state (Boot.initializeDatabase sc s)
  = Boot.Server true
      (Some (visitor_count
               (seed_count (Database (default ∅ (Boot.visits s))
                                     (Boot.mode s)))))
      (Boot.mode s).
Proof.
  intros Hok. destruct s as [u v m].
  boot; cbn [firstn] in Hok;
    repeat match goal with
    | H : Forall _ (_ :: _) |- _ => inversion H; clear H; subst
    end;
    try discriminate; split; reflexivity.
Qed.

(** After an [initializeDatabase] in which nothing failed, both tables
    exist and row 1 is there: with the count it had, or with 0 when the
    row was missing; the other rows are as before, and the connection was
    released. *)
Theorem init_success_seeds_once (sc : list bool) (s : Boot.server) :
  Forall (fun b => b = true) (firstn 5 sc) ->
  let r := Boot.initializeDatabase sc s in
  let old := default ∅ (Boot.visits s) in
  Boot.users (Boot.state r) = true /\
  last (Boot.sent r) = Some (Boot.Release, true) /\
  exists rows,
    Boot.visits (Boot.state r) = Some rows /\
    rows !! 1 = Some (default (to_INT 0) (old !! 1)) /\
    forall id, id <> 1 -> rows !! id = old !! id.
Proof.
  intros Hok. cbv zeta.
  destruct (init_success_state sc s Hok) as [-> ->]. cbn.
  split; [reflexivity|]. split; [reflexivity|].
  eexists. split; [reflexivity|].
  unfold seed_count. cbn.
  destruct (default ∅ (Boot.visits s) !! 1) as [x|] eqn:Hx; cbn.
  - split; [exact Hx|reflexivity].
  - split; [now rewrite lookup_insert_eq|].
    intros id Hid. now rewrite lookup_insert_ne.
Qed.

Lemma init_success_seeds_once_witness :
  let s := Boot.Server false (Some {[ 2 := to_INT 5 ]}) true in
  Forall (fun b => b = true) (firstn 5 [true; true]) /\
  exists rows,
    Boot.visits (Boot.state (Boot.initializeDatabase [true; true] s))
      = Some rows /\
    rows !! 1 = Some (default (to_INT 0) (default ∅ (Boot.visits s) !! 1)).
Proof.
  cbv zeta.
  assert (Forall (fun b => b = true) (firstn 5 [true; true])) as Hok
    by (repeat constructor).
  split; [exact Hok|].
  destruct (init_success_seeds_once [true; true]
              (Boot.Server false (Some {[ 2 := to_INT 5 ]}) true) Hok)
    as (_ & _ & rows & H1 & H2 & _).
  exists rows. split; [exact H1|exact H2].
Defined.

(** Once an [initializeDatabase] has gone through, any later one changes
    nothing, whether it goes through or fails. *)
Theorem init_twice_is_once (sc1 sc2 : list bool) (s : Boot.server) :
  Forall (fun b => b = true) (firstn 5 sc1) ->
  let s1 := Boot.state (Boot.initializeDatabase sc1 s) in
  Boot.state (Boot.initializeDatabase sc2 s1) = s1.
Proof.
  intros Hok. cbv zeta.
  destruct (init_success_state sc1 s Hok) as [_ ->].
  destruct (default ∅ (Boot.visits s) !! 1) as [x|] eqn:Hx.
  - eapply init_present_noop; [reflexivity|reflexivity|].
    rewrite (seed_count_present _ _ _ Hx). exact Hx.
  - eapply init_present_noop; [reflexivity|reflexivity|].
    unfold seed_count. cbn. rewrite Hx. cbn. apply lookup_insert_eq.
Qed.

Lemma init_twice_is_once_witness :
  Forall (fun b => b = true) (firstn 5 []) /\
  let s1 := Boot.state (Boot.initializeDatabase [] (Boot.blank true)) in
  Boot.state (Boot.initializeDatabase [true; false] s1) = s1.
Proof.
  assert (Forall (fun b => b = true) (firstn 5 [])) as Hok by constructor.
  split; [exact Hok|].
  exact (init_twice_is_once [] [true; false] (Boot.blank true) Hok).
Defined.




(** ** The handler of [GET /]: the top of the INT column *)

(** Once the count is 2147483647, the largest the column holds, a request
    cannot raise it: in strict mode the UPDATE is an error, so every
    request ends in the server error and leaves the store as it was;
    otherwise the count stays where it is, whatever fails. *)
Theorem home_at_top_of_column (sc : list env) (w : world) :
  store_count w = Some INT_MAX ->
  let x := run handler sc w in
  store_count (final x) = Some INT_MAX /\
  (strict (mysql w) = true ->
   returned x = Some ServerError /\ mysql (final x) = mysql w).
Proof.
  unfold store_count.
  walk; intros Hc;
    repeat match goal with
    | H : increment_count _ = _ |- _ =>
        pose proof (increment_count_full _ Hc) as Hfull;
        destruct (strict (mysql w));
        [rewrite Hfull in H; discriminate H
        |destruct Hfull as (d' & Hd' & Hc'); rewrite Hd' in H;
         injection H as <-]
    end;
    (split; [assumption|intros Hs; try discriminate Hs; split; reflexivity]).
Qed.

Lemma home_at_top_of_column_witness :
  let w := world_of 2147483647 true in
  store_count w = Some INT_MAX /\
  store_count (final (run handler [] w)) = Some INT_MAX /\
  returned (run handler [] w) = Some ServerError.
Proof.
  cbv zeta.
  assert (store_count (world_of 2147483647 true) = Some INT_MAX) as Hc
    by reflexivity.
  destruct (home_at_top_of_column [] (world_of 2147483647 true) Hc)
    as (H1 & H2).
  split; [exact Hc|]. split; [exact H1|]. exact (proj1 (H2 eq_refl)).
Defined.
